(** * A keypad lockbox: three lock modes sharing one relay

    Shallow embedding of [Untitled-1.py]: the [Lockbox] state machine
    (normal, timed window, lockdown), the keypad interpreter
    [StateMachineThread] with its four-character code buffer, and the
    periodic [WindowModeThread].

    Every method of the program becomes a computation in a state monad over
    [World], the part of the Python heap and of the hardware the methods
    touch.  A [with self.state_lock:] block is one indivisible computation;
    the interleaving of the two threads that call into the [Lockbox] is the
    step function [sys_step] of the section on the threads. *)

From Stdlib Require Import String Ascii List Bool Arith Lia DecimalString.
From ExtLib Require Import Structures.Monad Structures.MonadState.
From ExtLib Require Import Data.Monads.StateMonad.
Import ListNotations.
Import MonadNotation.

Local Open Scope string_scope.
Local Open Scope monad_scope.
Local Open Scope list_scope.

(** ** Configuration *)

Definition NORMAL_CODE : string := "1234".
Definition LOCKDOWN_CODE : string := "9999".
Definition WINDOW_UNLOCK_TIME : nat := 15.
Definition WINDOW_INTERVAL : nat := 30.
Definition TEMP_UNLOCK_TIME : nat := 10.

Definition KEY_MAP : list (list string) :=
  [ ["1"; "2"; "3"; "A"];
    ["4"; "5"; "6"; "B"];
    ["7"; "8"; "9"; "C"];
    ["*"; "0"; "#"; "D"] ].

Definition RELAY_PIN : nat := 18.

(** The symbols the keypad thread can put on the queue: [KEY_MAP[i][j]]. *)
Definition key_symbols : list string := concat KEY_MAP.

(** ** Data model *)

(** A GPIO level. *)
Inductive Level : Type := LOW | HIGH.

(** The three values ever stored in [Lockbox.state]. *)
Inductive Mode : Type := LOCKDOWN | WINDOW | NORMAL.

(** The fields of a [Lockbox] object ([state_lock] is the mutex, modelled by
    the atomicity of the methods). *)
Record Lockbox : Type := mkLockbox
  { state : Mode;
    lockdown_active : bool;
    window_active : bool }.

(** What an execution does, in program order: writes to the fields of the
    lockbox, GPIO outputs, console lines, sleeps, and entries into the
    methods of the program. *)
Inductive Event : Type :=
  | EvCall (method : string)
  | EvSetState (m : Mode)
  | EvSetLockdownActive (b : bool)
  | EvSetWindowActive (b : bool)
  | EvOutput (pin : nat) (l : Level)
  | EvPrint (line : string)
  | EvSleep (seconds : nat).

(** The lockbox shared by the two threads, the interpreter's [buffer], the
    level driven on [RELAY_PIN], and the events so far (oldest first). *)
Record World : Type := mkWorld
  { lockbox : Lockbox;
    buffer : string;
    relay : Level;
    trace : list Event }.

Definition IO : Type -> Type := StateMonad.state World.

Definition exec (c : IO unit) (w : World) : World := execState c w.

(** ** Primitive effects *)

Definition get_world : IO World := get.

Definition emit (e : Event) : IO unit :=
  w <- get_world ;;
  put (mkWorld (lockbox w) (buffer w) (relay w) (trace w ++ [e])).

Definition call (method : string) : IO unit := emit (EvCall method).

Definition print (line : string) : IO unit := emit (EvPrint line).

Definition time_sleep (seconds : nat) : IO unit := emit (EvSleep seconds).

(** [GPIO.output(pin, l)]: of the output pins only the relay's is modelled. *)
Definition GPIO_output (pin : nat) (l : Level) : IO unit :=
  w <- get_world ;;
  put (mkWorld (lockbox w) (buffer w)
         (if Nat.eqb pin RELAY_PIN then l else relay w) (trace w)) ;;
  emit (EvOutput pin l).

Definition set_state (m : Mode) : IO unit :=
  w <- get_world ;;
  let self := lockbox w in
  put (mkWorld (mkLockbox m (lockdown_active self) (window_active self))
         (buffer w) (relay w) (trace w)) ;;
  emit (EvSetState m).

Definition set_lockdown_active (b : bool) : IO unit :=
  w <- get_world ;;
  let self := lockbox w in
  put (mkWorld (mkLockbox (state self) b (window_active self))
         (buffer w) (relay w) (trace w)) ;;
  emit (EvSetLockdownActive b).

Definition set_window_active (b : bool) : IO unit :=
  w <- get_world ;;
  let self := lockbox w in
  put (mkWorld (mkLockbox (state self) (lockdown_active self) b)
         (buffer w) (relay w) (trace w)) ;;
  emit (EvSetWindowActive b).

Definition set_buffer (s : string) : IO unit :=
  w <- get_world ;;
  put (mkWorld (lockbox w) s (relay w) (trace w)).

(** [str(n)] as an f-string formats it. *)
Definition str_of_nat (n : nat) : string :=
  NilEmpty.string_of_uint (Nat.to_uint n).

(** ** RelayControl *)

Definition RelayControl_lock : IO unit := GPIO_output RELAY_PIN LOW.

Definition RelayControl_unlock : IO unit := GPIO_output RELAY_PIN HIGH.

(** The actuator is locked when the relay pin is driven low. *)
Definition locked (w : World) : Prop := relay w = LOW.

(** ** Lockbox *)

(** [Lockbox.__init__]. *)
Definition Lockbox_init : Lockbox := mkLockbox NORMAL false false.

Definition enter_lockdown : IO unit :=
  call "enter_lockdown" ;;
  set_state LOCKDOWN ;;
  set_lockdown_active true ;;
  RelayControl_lock ;;
  print "[STATE] LOCKDOWN".

Definition exit_lockdown : IO unit :=
  call "exit_lockdown" ;;
  set_state NORMAL ;;
  set_lockdown_active false ;;
  RelayControl_lock ;;
  print "[STATE] LOCKDOWN CLEARED → NORMAL MODE".

Definition trigger_window_unlock : IO unit :=
  call "trigger_window_unlock" ;;
  w <- get_world ;;
  if negb (lockdown_active (lockbox w)) then
    set_window_active true ;;
    set_state WINDOW ;;
    RelayControl_unlock ;;
    print ("[STATE] WINDOW UNLOCK for " ++ str_of_nat WINDOW_UNLOCK_TIME
             ++ " seconds")
  else ret tt.

Definition end_window_unlock : IO unit :=
  call "end_window_unlock" ;;
  set_window_active false ;;
  set_state NORMAL ;;
  RelayControl_lock ;;
  print "[STATE] WINDOW CLOSED → NORMAL MODE".

Definition temporary_unlock : IO unit :=
  call "temporary_unlock" ;;
  w <- get_world ;;
  if lockdown_active (lockbox w) then
    print "[INFO] LOCKDOWN ACTIVE - IGNORING NORMAL UNLOCK"
  else if window_active (lockbox w) then
    print "[INFO] WINDOW UNLOCK ACTIVE - NO NEED FOR TEMPORARY UNLOCK"
  else
    RelayControl_unlock ;;
    print ("[STATE] TEMPORARY UNLOCK for " ++ str_of_nat TEMP_UNLOCK_TIME
             ++ " seconds") ;;
    time_sleep TEMP_UNLOCK_TIME ;;
    RelayControl_lock ;;
    print "[STATE] TEMPORARY UNLOCK ENDED → NORMAL MODE".

(** ** StateMachineThread *)

Definition process_code : IO unit :=
  call "process_code" ;;
  w <- get_world ;;
  if String.eqb (buffer w) LOCKDOWN_CODE then
    if lockdown_active (lockbox w) then exit_lockdown else enter_lockdown
  else if String.eqb (buffer w) NORMAL_CODE then
    temporary_unlock
  else
    print "[INFO] INVALID CODE".

(** The body of the loop of [StateMachineThread.run], for the [key] taken
    from the queue. *)
Definition run_key (key : string) : IO unit :=
  print ("[KEY] " ++ key) ;;
  if String.eqb key "*" then
    set_buffer "" ;;
    print "[BUFFER CLEARED]"
  else
    w <- get_world ;;
    set_buffer (buffer w ++ key) ;;
    w <- get_world ;;
    if Nat.leb 4 (String.length (buffer w)) then
      process_code ;;
      set_buffer ""
    else ret tt.

(** [StateMachineThread.run] on the keys the queue delivers, in order. *)
Fixpoint run_keys (keys : list string) : IO unit :=
  match keys with
  | [] => ret tt
  | key :: rest => run_key key ;; run_keys rest
  end.

(** ** WindowModeThread *)

(** Where [WindowModeThread.run] stands between two of its accesses to the
    lockbox: in [time.sleep(WINDOW_INTERVAL)], before the test of
    [lockdown_active]; past the test, before [trigger_window_unlock()]; in
    [time.sleep(WINDOW_UNLOCK_TIME)], before [end_window_unlock()]. *)
Inductive WindowPc : Type := AtInterval | AtTrigger | AtWindow.

(** One access of the window thread to the lockbox.  Its two sleeps are
    outside the lock and let the other thread run: they are the points at
    which the interleaving may switch, and leave no event. *)
Definition WindowModeThread_step (pc : WindowPc) : IO WindowPc :=
  match pc with
  | AtInterval =>
      w <- get_world ;;
      if negb (lockdown_active (lockbox w)) then ret AtTrigger
      else ret AtInterval
  | AtTrigger => trigger_window_unlock ;; ret AtWindow
  | AtWindow => end_window_unlock ;; ret AtInterval
  end.

(** ** The program: main and the two threads on one lockbox *)

(** [main]: the relay pin is set up low, one [Lockbox] is made and handed to
    both threads; the interpreter's buffer starts empty. *)
Definition initial_world : World :=
  mkWorld Lockbox_init "" LOW [EvCall "Lockbox"].

Record System : Type := mkSystem
  { world : World;
    window_pc : WindowPc }.

Definition initial_system : System := mkSystem initial_world AtInterval.

(** Which thread moves next: the interpreter, taking [key] from the queue,
    or the window thread.  The interpreter reads [lockdown_active] outside
    the lock before it calls into the lockbox, but no other thread writes
    that field, so one loop iteration is taken as one step. *)
Inductive Action : Type :=
  | Key (key : string)
  | Window.

Definition sys_step (s : System) (a : Action) : System :=
  match a with
  | Key key => mkSystem (exec (run_key key) (world s)) (window_pc s)
  | Window =>
      let (pc, w) := runState (WindowModeThread_step (window_pc s)) (world s) in
      mkSystem w pc
  end.

Definition run_schedule (sched : list Action) (s : System) : System :=
  fold_left sys_step sched s.

(** The keypad thread only ever enqueues entries of [KEY_MAP]. *)
Definition is_key_symbol (key : string) : bool :=
  existsb (String.eqb key) key_symbols.

Definition valid_action (a : Action) : bool :=
  match a with
  | Key key => is_key_symbol key
  | Window => true
  end.

Definition valid_schedule (sched : list Action) : bool :=
  forallb valid_action sched.

(** ** Transitions taken in any order *)

Inductive Op : Type :=
  | EnterLockdown
  | ExitLockdown
  | TriggerWindowUnlock
  | EndWindowUnlock
  | TemporaryUnlock.

Definition apply_op (o : Op) : IO unit :=
  match o with
  | EnterLockdown => enter_lockdown
  | ExitLockdown => exit_lockdown
  | TriggerWindowUnlock => trigger_window_unlock
  | EndWindowUnlock => end_window_unlock
  | TemporaryUnlock => temporary_unlock
  end.

Fixpoint run_ops (ops : list Op) : IO unit :=
  match ops with
  | [] => ret tt
  | o :: rest => apply_op o ;; run_ops rest
  end.

(** The worlds the program can be in between two atomic steps.  Any
    transition may follow any other, and keys may arrive in between: this
    contains every interleaving of the two threads ([run_schedule_reachable]
    below), and more. *)
Inductive reachable : World -> Prop :=
  | reach_init : reachable initial_world
  | reach_op o w : reachable w -> reachable (exec (apply_op o) w)
  | reach_key key w :
      is_key_symbol key = true -> reachable w -> reachable (exec (run_key key) w).

(** ** Observations on traces *)

(** The events of [w'] that were not yet in [w]. *)
Definition new_events (w w' : World) : list Event :=
  skipn (length (trace w)) (trace w').

Definition is_call (method : string) (e : Event) : bool :=
  match e with
  | EvCall m => String.eqb m method
  | _ => false
  end.

Definition count_calls (method : string) (evs : list Event) : nat :=
  length (filter (is_call method) evs).

(** The methods entered, in order. *)
Fixpoint calls (evs : list Event) : list string :=
  match evs with
  | [] => []
  | EvCall m :: rest => m :: calls rest
  | _ :: rest => calls rest
  end.

(** The levels driven on the relay pin, in order. *)
Fixpoint actuator_commands (evs : list Event) : list Level :=
  match evs with
  | [] => []
  | EvOutput pin l :: rest =>
      if Nat.eqb pin RELAY_PIN then l :: actuator_commands rest
      else actuator_commands rest
  | _ :: rest => actuator_commands rest
  end.

(** The console lines, in order. *)
Fixpoint log_lines (evs : list Event) : list string :=
  match evs with
  | [] => []
  | EvPrint line :: rest => line :: log_lines rest
  | _ :: rest => log_lines rest
  end.

Definition is_field_write (e : Event) : bool :=
  match e with
  | EvSetState _ | EvSetLockdownActive _ | EvSetWindowActive _ => true
  | _ => false
  end.

(** The writes to fields of the lockbox. *)
Definition field_writes (evs : list Event) : list Event :=
  filter is_field_write evs.

(** ** The invariants *)

(** The invariant as the data model words it. *)
Definition spec_invariant (l : Lockbox) : Prop :=
  (lockdown_active l = true <-> state l = LOCKDOWN) /\
  (window_active l = true -> state l = WINDOW /\ lockdown_active l = false).

(** Exactly one of the three modes holds. *)
Definition exactly_one_mode (l : Lockbox) : Prop :=
  (state l = NORMAL /\ state l <> WINDOW /\ state l <> LOCKDOWN) \/
  (state l <> NORMAL /\ state l = WINDOW /\ state l <> LOCKDOWN) \/
  (state l <> NORMAL /\ state l <> WINDOW /\ state l = LOCKDOWN).

(** What the transitions do maintain: the mode determines the flags, not
    the flags the mode. *)
Definition mode_invariant (l : Lockbox) : Prop :=
  (state l = LOCKDOWN -> lockdown_active l = true) /\
  (state l = WINDOW -> window_active l = true /\ lockdown_active l = false).

(** The six combinations of mode, flags and relay level that occur. *)
Definition consistent (w : World) : bool :=
  match state (lockbox w), lockdown_active (lockbox w),
        window_active (lockbox w), relay w with
  | NORMAL, false, false, LOW
  | NORMAL, false, true, LOW
  | NORMAL, true, false, LOW
  | WINDOW, false, true, HIGH
  | LOCKDOWN, true, false, LOW
  | LOCKDOWN, true, true, LOW => true
  | _, _, _, _ => false
  end.

(** The interpreter's buffer between two keys: fewer than four characters,
    none of them the clear key. *)
Fixpoint has_star (s : string) : bool :=
  match s with
  | EmptyString => false
  | String c rest => Ascii.eqb c "*"%char || has_star rest
  end.

Definition buffer_ok (w : World) : Prop :=
  String.length (buffer w) < 4 /\ has_star (buffer w) = false.

(** * Equations of the embedding *)

Section Equations.

Variable w : World.

Lemma exec_seq (c1 c2 : IO unit) :
  exec (c1 ;; c2) w = exec c2 (exec c1 w).
Proof.
  unfold exec, execState. cbn. destruct (runState c1 w) as [[] w1].
  reflexivity.
Qed.

Lemma exec_get (f : World -> IO unit) :
  exec (w0 <- get_world ;; f w0) w = exec (f w) w.
Proof. reflexivity. Qed.

Lemma exec_ret : exec (ret tt) w = w.
Proof. reflexivity. Qed.

Lemma exec_if (b : bool) (c1 c2 : IO unit) :
  exec (if b then c1 else c2) w = if b then exec c1 w else exec c2 w.
Proof. destruct b; reflexivity. Qed.

Lemma exec_emit e :
  exec (emit e) w = mkWorld (lockbox w) (buffer w) (relay w) (trace w ++ [e]).
Proof. reflexivity. Qed.

Lemma exec_print line :
  exec (print line) w =
  mkWorld (lockbox w) (buffer w) (relay w) (trace w ++ [EvPrint line]).
Proof. reflexivity. Qed.

Lemma exec_set_buffer s :
  exec (set_buffer s) w = mkWorld (lockbox w) s (relay w) (trace w).
Proof. reflexivity. Qed.

End Equations.

(** What each transition leaves behind, field by field. *)

Ltac run_op w :=
  let m := fresh "m" in
  let ld := fresh "ld" in
  let win := fresh "win" in
  destruct w as [[m ld win] ? ? ?]; try destruct ld; try destruct win;
  cbn; rewrite <- ?app_assoc; reflexivity.

Lemma enter_lockdown_spec w :
  exec enter_lockdown w =
  mkWorld (mkLockbox LOCKDOWN true (window_active (lockbox w))) (buffer w) LOW
    (trace w ++ [EvCall "enter_lockdown"; EvSetState LOCKDOWN;
                 EvSetLockdownActive true; EvOutput RELAY_PIN LOW;
                 EvPrint "[STATE] LOCKDOWN"]).
Proof. run_op w. Qed.

Lemma exit_lockdown_spec w :
  exec exit_lockdown w =
  mkWorld (mkLockbox NORMAL false (window_active (lockbox w))) (buffer w) LOW
    (trace w ++ [EvCall "exit_lockdown"; EvSetState NORMAL;
                 EvSetLockdownActive false; EvOutput RELAY_PIN LOW;
                 EvPrint "[STATE] LOCKDOWN CLEARED → NORMAL MODE"]).
Proof. run_op w. Qed.

Lemma trigger_window_unlock_spec w :
  exec trigger_window_unlock w =
  if lockdown_active (lockbox w) then
    mkWorld (lockbox w) (buffer w) (relay w)
      (trace w ++ [EvCall "trigger_window_unlock"])
  else
    mkWorld (mkLockbox WINDOW false true) (buffer w) HIGH
      (trace w ++ [EvCall "trigger_window_unlock"; EvSetWindowActive true;
                   EvSetState WINDOW; EvOutput RELAY_PIN HIGH;
                   EvPrint "[STATE] WINDOW UNLOCK for 15 seconds"]).
Proof. run_op w. Qed.

Lemma end_window_unlock_spec w :
  exec end_window_unlock w =
  mkWorld (mkLockbox NORMAL (lockdown_active (lockbox w)) false) (buffer w) LOW
    (trace w ++ [EvCall "end_window_unlock"; EvSetWindowActive false;
                 EvSetState NORMAL; EvOutput RELAY_PIN LOW;
                 EvPrint "[STATE] WINDOW CLOSED → NORMAL MODE"]).
Proof. run_op w. Qed.

Lemma temporary_unlock_spec w :
  exec temporary_unlock w =
  if lockdown_active (lockbox w) then
    mkWorld (lockbox w) (buffer w) (relay w)
      (trace w ++ [EvCall "temporary_unlock";
                   EvPrint "[INFO] LOCKDOWN ACTIVE - IGNORING NORMAL UNLOCK"])
  else if window_active (lockbox w) then
    mkWorld (lockbox w) (buffer w) (relay w)
      (trace w ++
       [EvCall "temporary_unlock";
        EvPrint "[INFO] WINDOW UNLOCK ACTIVE - NO NEED FOR TEMPORARY UNLOCK"])
  else
    mkWorld (lockbox w) (buffer w) LOW
      (trace w ++ [EvCall "temporary_unlock"; EvOutput RELAY_PIN HIGH;
                   EvPrint "[STATE] TEMPORARY UNLOCK for 10 seconds";
                   EvSleep TEMP_UNLOCK_TIME; EvOutput RELAY_PIN LOW;
                   EvPrint "[STATE] TEMPORARY UNLOCK ENDED → NORMAL MODE"]).
Proof. run_op w. Qed.

Lemma process_code_unfold w :
  exec process_code w =
  let w1 := exec (call "process_code") w in
  if String.eqb (buffer w) LOCKDOWN_CODE then
    if lockdown_active (lockbox w) then exec exit_lockdown w1
    else exec enter_lockdown w1
  else if String.eqb (buffer w) NORMAL_CODE then exec temporary_unlock w1
  else exec (print "[INFO] INVALID CODE") w1.
Proof.
  unfold process_code. rewrite exec_seq, exec_get, !exec_if. reflexivity.
Qed.

Lemma run_key_unfold key w :
  exec (run_key key) w =
  let w1 := exec (print ("[KEY] " ++ key)) w in
  if String.eqb key "*" then
    exec (print "[BUFFER CLEARED]") (exec (set_buffer "") w1)
  else
    let w2 := exec (set_buffer (buffer w ++ key)) w1 in
    if Nat.leb 4 (String.length (buffer w ++ key)) then
      exec (set_buffer "") (exec process_code w2)
    else w2.
Proof.
  unfold run_key. rewrite exec_seq, exec_if. cbv zeta.
  destruct (String.eqb key "*").
  - now rewrite exec_seq.
  - rewrite exec_get, exec_seq, exec_get, exec_if, exec_seq, exec_ret.
    reflexivity.
Qed.

(** The trace only grows. *)
Lemma new_events_app w w' evs :
  trace w' = trace w ++ evs -> new_events w w' = evs.
Proof.
  intros H. unfold new_events. rewrite H, skipn_app, skipn_all, Nat.sub_diag.
  reflexivity.
Qed.

(** * Invariants of the reachable worlds *)

(** ** Mode, flags and relay *)

Lemma consistent_ext w w' :
  lockbox w = lockbox w' -> relay w = relay w' -> consistent w = consistent w'.
Proof. unfold consistent. now intros -> ->. Qed.

Lemma consistent_initial : consistent initial_world = true.
Proof. reflexivity. Qed.

Lemma consistent_op o w :
  consistent w = true -> consistent (exec (apply_op o) w) = true.
Proof.
  destruct w as [[m ld win] b r t]. unfold consistent at 1. cbn.
  destruct o; cbn [apply_op];
    [ rewrite enter_lockdown_spec | rewrite exit_lockdown_spec
    | rewrite trigger_window_unlock_spec | rewrite end_window_unlock_spec
    | rewrite temporary_unlock_spec ];
    destruct m, ld, win, r; intros H; try discriminate H; reflexivity.
Qed.

Lemma consistent_process_code w :
  consistent w = true -> consistent (exec process_code w) = true.
Proof.
  intros H. rewrite process_code_unfold. cbv zeta.
  assert (H1 : consistent (exec (call "process_code") w) = true)
    by (rewrite <- H; now apply consistent_ext).
  destruct (String.eqb (buffer w) LOCKDOWN_CODE).
  - destruct (lockdown_active (lockbox w)).
    + now apply (consistent_op ExitLockdown).
    + now apply (consistent_op EnterLockdown).
  - destruct (String.eqb (buffer w) NORMAL_CODE).
    + now apply (consistent_op TemporaryUnlock).
    + rewrite <- H1. now apply consistent_ext.
Qed.

Lemma consistent_key key w :
  consistent w = true -> consistent (exec (run_key key) w) = true.
Proof.
  intros H. rewrite run_key_unfold. cbv zeta.
  destruct (String.eqb key "*").
  - rewrite <- H. now apply consistent_ext.
  - destruct (Nat.leb 4 (String.length (buffer w ++ key))).
    + rewrite exec_set_buffer.
      erewrite consistent_ext; [ apply consistent_process_code | reflexivity .. ].
      rewrite <- H. now apply consistent_ext.
    + rewrite <- H. now apply consistent_ext.
Qed.

Lemma reachable_consistent w : reachable w -> consistent w = true.
Proof.
  induction 1 as [ | o w _ IH | key w _ _ IH ].
  - exact consistent_initial.
  - now apply consistent_op.
  - now apply consistent_key.
Qed.

(** Reading the table [consistent] back. *)
Lemma consistent_mode_invariant w :
  consistent w = true -> mode_invariant (lockbox w).
Proof.
  destruct w as [[m ld win] b r t]. unfold consistent, mode_invariant. cbn.
  destruct m, ld, win, r; intros H; try discriminate H;
    (split; [ intros E | intros E; split ]); try reflexivity; discriminate E.
Qed.

Lemma consistent_locked w :
  consistent w = true -> state (lockbox w) <> WINDOW -> relay w = LOW.
Proof.
  destruct w as [[m ld win] b r t]. unfold consistent. cbn.
  destruct m, ld, win, r; intros H N; try discriminate H; try reflexivity;
    now contradiction N.
Qed.

Lemma consistent_idle w :
  consistent w = true ->
  lockdown_active (lockbox w) = false -> window_active (lockbox w) = false ->
  state (lockbox w) = NORMAL.
Proof.
  destruct w as [[m ld win] b r t]. unfold consistent. cbn.
  destruct m, ld, win, r; intros H L W; try discriminate; reflexivity.
Qed.

Lemma exactly_one_mode_holds l : exactly_one_mode l.
Proof.
  unfold exactly_one_mode. destruct (state l).
  - right; right. repeat split; discriminate.
  - right; left. repeat split; discriminate.
  - left. repeat split; discriminate.
Qed.

(** ** The interpreter's buffer *)

Lemma length_append (s1 s2 : string) :
  String.length (s1 ++ s2)%string = String.length s1 + String.length s2.
Proof. induction s1 as [ | c s1 IH ]; cbn; [ reflexivity | now rewrite IH ]. Qed.

Lemma has_star_append (s1 s2 : string) :
  has_star (s1 ++ s2)%string = has_star s1 || has_star s2.
Proof.
  induction s1 as [ | c s1 IH ]; cbn; [ reflexivity | ].
  now rewrite IH, orb_assoc.
Qed.

(** Each entry of [KEY_MAP] is one character, and only ["*"] is the star. *)
Lemma key_symbol_shape key :
  is_key_symbol key = true ->
  String.length key = 1 /\ (String.eqb key "*" = false -> has_star key = false).
Proof.
  unfold is_key_symbol. rewrite existsb_exists. intros [k [Hin Heq]].
  apply String.eqb_eq in Heq. subst k.
  cbn in Hin.
  repeat (destruct Hin as [ <- | Hin ]; [ split; [ reflexivity | cbn; congruence ] | ]).
  contradiction.
Qed.

Lemma buffer_op o w : buffer (exec (apply_op o) w) = buffer w.
Proof.
  destruct o; cbn [apply_op];
    [ rewrite enter_lockdown_spec | rewrite exit_lockdown_spec
    | rewrite trigger_window_unlock_spec | rewrite end_window_unlock_spec
    | rewrite temporary_unlock_spec ];
    repeat match goal with |- context [if ?b then _ else _] => destruct b end;
    reflexivity.
Qed.

Lemma buffer_process_code w : buffer (exec process_code w) = buffer w.
Proof.
  rewrite process_code_unfold. cbv zeta.
  destruct (String.eqb (buffer w) LOCKDOWN_CODE);
    [ destruct (lockdown_active (lockbox w)) | destruct (String.eqb (buffer w) NORMAL_CODE) ].
  - now rewrite (buffer_op ExitLockdown).
  - now rewrite (buffer_op EnterLockdown).
  - now rewrite (buffer_op TemporaryUnlock).
  - reflexivity.
Qed.

(** The buffer after one key. *)
Lemma buffer_key key w :
  buffer (exec (run_key key) w) =
  if String.eqb key "*" then ""%string
  else if Nat.leb 4 (String.length (buffer w ++ key)) then ""%string
       else (buffer w ++ key)%string.
Proof.
  rewrite run_key_unfold. cbv zeta.
  destruct (String.eqb key "*"); [ reflexivity | ].
  destruct (Nat.leb 4 (String.length (buffer w ++ key))); reflexivity.
Qed.

Lemma buffer_ok_key key w :
  is_key_symbol key = true -> buffer_ok w -> buffer_ok (exec (run_key key) w).
Proof.
  intros Hk [Hlen Hstar]. unfold buffer_ok. rewrite buffer_key.
  destruct (key_symbol_shape key Hk) as [H1 Hs].
  destruct (String.eqb key "*"); [ cbn; split; [ lia | reflexivity ] | ].
  destruct (Nat.leb_spec 4 (String.length (buffer w ++ key))) as [ H4 | H4 ].
  - cbn; split; [ lia | reflexivity ].
  - split; [ exact H4 | ].
    rewrite has_star_append, Hstar, Hs; reflexivity.
Qed.

Lemma reachable_buffer_ok w : reachable w -> buffer_ok w.
Proof.
  induction 1 as [ | o w _ IH | key w Hk _ IH ].
  - split; [ cbn; lia | reflexivity ].
  - unfold buffer_ok. now rewrite buffer_op.
  - now apply buffer_ok_key.
Qed.

(** ** The threads stay within [reachable] *)

Lemma runState_then {A : Type} (c : IO unit) (x : A) w :
  runState (c ;; ret x) w = (x, exec c w).
Proof.
  unfold exec, execState. cbn. destruct (runState c w) as [[] w1]. reflexivity.
Qed.

Lemma sys_step_window s :
  sys_step s Window =
  match window_pc s with
  | AtInterval =>
      mkSystem (world s)
        (if lockdown_active (lockbox (world s)) then AtInterval else AtTrigger)
  | AtTrigger => mkSystem (exec trigger_window_unlock (world s)) AtWindow
  | AtWindow => mkSystem (exec end_window_unlock (world s)) AtInterval
  end.
Proof.
  destruct s as [w pc]. unfold sys_step. cbn [world window_pc].
  destruct pc; cbn [WindowModeThread_step].
  - cbn. destruct (lockdown_active (lockbox w)); reflexivity.
  - now rewrite runState_then.
  - now rewrite runState_then.
Qed.

Lemma sys_step_reachable s a :
  valid_action a = true -> reachable (world s) -> reachable (world (sys_step s a)).
Proof.
  intros Ha Hr. destruct a as [ key | ].
  - now apply reach_key.
  - rewrite sys_step_window. destruct (window_pc s); cbn [world].
    + exact Hr.
    + exact (reach_op TriggerWindowUnlock _ Hr).
    + exact (reach_op EndWindowUnlock _ Hr).
Qed.

Lemma run_schedule_reachable sched s :
  valid_schedule sched = true -> reachable (world s) ->
  reachable (world (run_schedule sched s)).
Proof.
  revert s. induction sched as [ | a sched IH ]; intros s Hv Hr; [ exact Hr | ].
  cbn in Hv. apply andb_true_iff in Hv as [Ha Hv].
  cbn [run_schedule fold_left]. apply IH; [ exact Hv | ].
  now apply sys_step_reachable.
Qed.

(** * The lock state machine *)

(** ** Modes and flags *)

(** A schedule of the two threads: the window thread passes its test and
    opens a window, the lockdown code is typed while the window is open,
    and the window thread then closes its window. *)
Definition race_schedule : list Action :=
  [Window; Window; Key "9"; Key "9"; Key "9"; Key "9"; Window].

(** The world during that schedule, before the window closes. *)
Definition world_lockdown_in_window : World :=
  world (run_schedule (firstn 6 race_schedule) initial_system).

(** The world at its end. *)
Definition world_window_closed_in_lockdown : World :=
  world (run_schedule race_schedule initial_system).

(** C1, as worded, fails.  Typing the lockdown code while a window is open
    leaves [window_active] set in mode [LOCKDOWN]; when the window thread
    then closes its window the mode is [NORMAL] with [lockdown_active] still
    set.  Both worlds are reached by the two threads, and neither satisfies
    the invariant of the data model. *)
Lemma mode_flags_counterexample :
  (reachable world_lockdown_in_window /\
   lockbox world_lockdown_in_window = mkLockbox LOCKDOWN true true /\
   ~ spec_invariant (lockbox world_lockdown_in_window)) /\
  (reachable world_window_closed_in_lockdown /\
   lockbox world_window_closed_in_lockdown = mkLockbox NORMAL true false /\
   ~ spec_invariant (lockbox world_window_closed_in_lockdown)).
Proof.
  assert (E1 : lockbox world_lockdown_in_window = mkLockbox LOCKDOWN true true)
    by (vm_compute; reflexivity).
  assert (E2 : lockbox world_window_closed_in_lockdown
               = mkLockbox NORMAL true false)
    by (vm_compute; reflexivity).
  split; (split; [ | split ]).
  - apply run_schedule_reachable; [ vm_compute; reflexivity | apply reach_init ].
  - exact E1.
  - rewrite E1. intros [_ H]. destruct (H eq_refl) as [E _]. discriminate E.
  - apply run_schedule_reachable; [ vm_compute; reflexivity | apply reach_init ].
  - exact E2.
  - rewrite E2. intros [[H _] _]. specialize (H eq_refl). discriminate H.
Qed.

(** C1, amended.  In every reachable world the mode determines the flags:
    mode [LOCKDOWN] implies [lockdown_active], mode [WINDOW] implies
    [window_active] and not [lockdown_active]; and exactly one of the three
    modes holds. *)
Theorem mode_determines_flags w :
  reachable w ->
  mode_invariant (lockbox w) /\ exactly_one_mode (lockbox w).
Proof.
  intros H. split.
  - apply consistent_mode_invariant, reachable_consistent, H.
  - apply exactly_one_mode_holds.
Qed.

Lemma mode_determines_flags_witness :
  mode_invariant (lockbox world_window_closed_in_lockdown) /\
  exactly_one_mode (lockbox world_window_closed_in_lockdown).
Proof.
  apply (mode_determines_flags world_window_closed_in_lockdown).
  apply run_schedule_reachable; [ reflexivity | apply reach_init ].
Defined.

(** The table [consistent] is exact: each of its six rows is reached by the
    two threads. *)
Lemma consistent_rows_reached :
  Forall
    (fun row : list Action * (Lockbox * Level) =>
       valid_schedule (fst row) = true /\
       lockbox (world (run_schedule (fst row) initial_system)) = fst (snd row) /\
       relay (world (run_schedule (fst row) initial_system)) = snd (snd row))
    [ ([], (mkLockbox NORMAL false false, LOW));
      (firstn 2 race_schedule, (mkLockbox WINDOW false true, HIGH));
      (firstn 6 race_schedule, (mkLockbox LOCKDOWN true true, LOW));
      (race_schedule, (mkLockbox NORMAL true false, LOW));
      (skipn 2 (firstn 6 race_schedule), (mkLockbox LOCKDOWN true false, LOW));
      (firstn 6 race_schedule ++ skipn 2 (firstn 6 race_schedule),
       (mkLockbox NORMAL false true, LOW)) ].
Proof. repeat constructor. Qed.

(** ** Priority of lockdown *)

(** C2.  While [lockdown_active] is set, [trigger_window_unlock] and
    [temporary_unlock] leave the mode, both flags and the relay as they
    were; neither writes a field nor drives the relay pin. *)
Theorem lockdown_priority w :
  lockdown_active (lockbox w) = true ->
  (lockbox (exec trigger_window_unlock w) = lockbox w /\
   relay (exec trigger_window_unlock w) = relay w /\
   actuator_commands (new_events w (exec trigger_window_unlock w)) = [] /\
   field_writes (new_events w (exec trigger_window_unlock w)) = []) /\
  (lockbox (exec temporary_unlock w) = lockbox w /\
   relay (exec temporary_unlock w) = relay w /\
   actuator_commands (new_events w (exec temporary_unlock w)) = [] /\
   field_writes (new_events w (exec temporary_unlock w)) = []).
Proof.
  intros H. split.
  - rewrite trigger_window_unlock_spec, H.
    erewrite new_events_app by reflexivity. repeat split.
  - rewrite temporary_unlock_spec, H.
    erewrite new_events_app by reflexivity. repeat split.
Qed.

Lemma lockdown_priority_witness :
  (lockbox (exec trigger_window_unlock world_lockdown_in_window)
   = lockbox world_lockdown_in_window /\
   relay (exec trigger_window_unlock world_lockdown_in_window)
   = relay world_lockdown_in_window /\
   actuator_commands
     (new_events world_lockdown_in_window
        (exec trigger_window_unlock world_lockdown_in_window)) = [] /\
   field_writes
     (new_events world_lockdown_in_window
        (exec trigger_window_unlock world_lockdown_in_window)) = []) /\
  (lockbox (exec temporary_unlock world_lockdown_in_window)
   = lockbox world_lockdown_in_window /\
   relay (exec temporary_unlock world_lockdown_in_window)
   = relay world_lockdown_in_window /\
   actuator_commands
     (new_events world_lockdown_in_window
        (exec temporary_unlock world_lockdown_in_window)) = [] /\
   field_writes
     (new_events world_lockdown_in_window
        (exec temporary_unlock world_lockdown_in_window)) = []).
Proof.
  apply (lockdown_priority world_lockdown_in_window). reflexivity.
Defined.

(** ** Entering lockdown *)

(** The world with a window open: the window thread has passed its test and
    called [trigger_window_unlock]. *)
Definition world_window_open : World :=
  world (run_schedule (firstn 2 race_schedule) initial_system).

(** C3, as worded, fails: [enter_lockdown] called while a window is open
    leaves [window_active] set. *)
Lemma enter_lockdown_counterexample :
  reachable world_window_open /\
  window_active (lockbox world_window_open) = true /\
  window_active (lockbox (exec enter_lockdown world_window_open)) <> false.
Proof.
  split; [ | split ].
  - apply run_schedule_reachable; [ reflexivity | apply reach_init ].
  - reflexivity.
  - discriminate.
Qed.

(** The flags after one key. *)
Lemma flags_key key w :
  lockdown_active (lockbox (exec (run_key key) w)) =
  (if String.eqb key "*" then lockdown_active (lockbox w)
   else if Nat.leb 4 (String.length (buffer w ++ key)) then
          if String.eqb (buffer w ++ key) LOCKDOWN_CODE
          then negb (lockdown_active (lockbox w))
          else lockdown_active (lockbox w)
        else lockdown_active (lockbox w)) /\
  window_active (lockbox (exec (run_key key) w)) = window_active (lockbox w).
Proof.
  rewrite run_key_unfold. cbv zeta.
  destruct (String.eqb key "*"); [ now split | ].
  destruct (Nat.leb 4 (String.length (buffer w ++ key))); [ | now split ].
  rewrite exec_set_buffer. cbn [lockbox]. rewrite process_code_unfold.
  cbv zeta. cbn [buffer exec lockbox].
  change (buffer (exec (set_buffer (buffer w ++ key))
                    (exec (print ("[KEY] " ++ key)) w)))
    with (buffer w ++ key)%string.
  change (lockbox (exec (set_buffer (buffer w ++ key))
                     (exec (print ("[KEY] " ++ key)) w)))
    with (lockbox w).
  destruct (String.eqb (buffer w ++ key) LOCKDOWN_CODE);
    [ destruct (lockdown_active (lockbox w)) eqn:Hl
    | destruct (String.eqb (buffer w ++ key) NORMAL_CODE) ].
  - rewrite exit_lockdown_spec. now split.
  - rewrite enter_lockdown_spec. now split.
  - rewrite temporary_unlock_spec.
    change (lockbox (exec (call "process_code")
                       (exec (set_buffer (buffer w ++ key))
                          (exec (print ("[KEY] " ++ key)) w))))
      with (lockbox w).
    destruct (lockdown_active (lockbox w)) eqn:Hl;
      [ cbn [lockbox]; now rewrite Hl | ].
    destruct (window_active (lockbox w)) eqn:Hw; cbn [lockbox];
      now rewrite Hl, Hw.
  - now split.
Qed.

(** [window_active] is cleared by [end_window_unlock] and by nothing else. *)
Lemma window_active_op o w :
  o <> EndWindowUnlock -> window_active (lockbox w) = true ->
  window_active (lockbox (exec (apply_op o) w)) = true.
Proof.
  intros Ho Hw. destruct o; cbn [apply_op];
    [ rewrite enter_lockdown_spec | rewrite exit_lockdown_spec
    | rewrite trigger_window_unlock_spec | now contradiction Ho
    | rewrite temporary_unlock_spec, Hw ];
    try destruct (lockdown_active (lockbox w));
    cbn [lockbox window_active]; try reflexivity; exact Hw.
Qed.

(** Transitions and keys in any order: [inl o] is the transition [o],
    [inr key] an iteration of the interpreter's loop on [key]. *)
Fixpoint run_moves (moves : list (Op + string)) : IO unit :=
  match moves with
  | [] => ret tt
  | inl o :: rest => apply_op o ;; run_moves rest
  | inr key :: rest => run_key key ;; run_moves rest
  end.

Lemma window_active_moves moves :
  forall w,
    ~ In (inl EndWindowUnlock) moves -> window_active (lockbox w) = true ->
    window_active (lockbox (exec (run_moves moves) w)) = true.
Proof.
  induction moves as [ | [ o | key ] moves IH ]; intros w Hn Hw; [ exact Hw | | ];
    cbn [run_moves]; rewrite exec_seq; apply IH;
    try (intros H; apply Hn; now right).
  - apply window_active_op; [ | exact Hw ]. intros ->. apply Hn. now left.
  - destruct (flags_key key w) as [_ ->]. exact Hw.
Qed.

(** C3, amended.  [enter_lockdown] is unconditional: from any world it sets
    the mode to [LOCKDOWN], sets [lockdown_active], and drives the relay
    low (once), so the unlock of a window in progress is overridden; it
    leaves [window_active] as it was.  A window that was active keeps
    [window_active] set from then on, through any transitions other than
    [end_window_unlock] and any keys the interpreter handles, in any
    order, until [end_window_unlock] clears it. *)
Theorem enter_lockdown_unconditional w moves :
  state (lockbox (exec enter_lockdown w)) = LOCKDOWN /\
  lockdown_active (lockbox (exec enter_lockdown w)) = true /\
  locked (exec enter_lockdown w) /\
  actuator_commands (new_events w (exec enter_lockdown w)) = [LOW] /\
  window_active (lockbox (exec enter_lockdown w)) = window_active (lockbox w) /\
  (window_active (lockbox w) = true -> ~ In (inl EndWindowUnlock) moves ->
   window_active (lockbox (exec (run_moves moves) (exec enter_lockdown w)))
   = true) /\
  window_active
    (lockbox
       (exec end_window_unlock (exec (run_moves moves) (exec enter_lockdown w))))
  = false.
Proof.
  split; [ | split; [ | split; [ | split; [ | split; [ | split ] ] ] ] ].
  - now rewrite enter_lockdown_spec.
  - now rewrite enter_lockdown_spec.
  - now rewrite enter_lockdown_spec.
  - rewrite enter_lockdown_spec. now erewrite new_events_app by reflexivity.
  - now rewrite enter_lockdown_spec.
  - intros Hw Hn. apply window_active_moves; [ exact Hn | ].
    now rewrite enter_lockdown_spec.
  - now rewrite end_window_unlock_spec.
Qed.

(** Lockdown is left, the normal code is refused, a window is asked for,
    lockdown is entered again by the keypad, and a further key is typed. *)
Definition moves_in_window : list (Op + string) :=
  [inl ExitLockdown; inr "1"; inr "2"; inr "3"; inr "4";
   inl TriggerWindowUnlock; inr "9"; inr "9"; inr "9"; inr "9";
   inl TemporaryUnlock; inr "1"]%string.

Lemma enter_lockdown_unconditional_witness :
  window_active
    (lockbox (exec (run_moves moves_in_window)
                (exec enter_lockdown world_window_open)))
  = true.
Proof.
  apply (enter_lockdown_unconditional world_window_open moves_in_window).
  - vm_compute. reflexivity.
  - cbn. intuition discriminate.
Defined.

(** * The interpreter *)

(** ** Counting calls in a trace *)

Lemma count_calls_app method evs1 evs2 :
  count_calls method (evs1 ++ evs2) =
  count_calls method evs1 + count_calls method evs2.
Proof. unfold count_calls. now rewrite filter_app, length_app. Qed.

(** No transition enters [process_code] or makes a [Lockbox]. *)
Lemma count_calls_op method o w :
  method = "process_code"%string \/ method = "Lockbox"%string ->
  count_calls method (trace (exec (apply_op o) w)) = count_calls method (trace w).
Proof.
  intros [-> | ->]; destruct o; cbn [apply_op];
    [ rewrite enter_lockdown_spec | rewrite exit_lockdown_spec
    | rewrite trigger_window_unlock_spec | rewrite end_window_unlock_spec
    | rewrite temporary_unlock_spec
    | rewrite enter_lockdown_spec | rewrite exit_lockdown_spec
    | rewrite trigger_window_unlock_spec | rewrite end_window_unlock_spec
    | rewrite temporary_unlock_spec ];
    repeat match goal with |- context [if ?b then _ else _] => destruct b end;
    cbn [trace]; rewrite count_calls_app; exact (Nat.add_0_r _).
Qed.

(** [process_code] is entered once per call of it. *)
Lemma count_process_code w :
  count_calls "process_code" (trace (exec process_code w)) =
  S (count_calls "process_code" (trace w)) /\
  count_calls "Lockbox" (trace (exec process_code w)) =
  count_calls "Lockbox" (trace w).
Proof.
  rewrite process_code_unfold. cbv zeta.
  assert (H1 : count_calls "process_code" (trace (exec (call "process_code") w))
               = S (count_calls "process_code" (trace w))).
  { unfold call. rewrite exec_emit. cbn [trace]. rewrite count_calls_app.
    exact (Nat.add_1_r _). }
  assert (H2 : count_calls "Lockbox" (trace (exec (call "process_code") w))
               = count_calls "Lockbox" (trace w)).
  { unfold call. rewrite exec_emit. cbn [trace]. rewrite count_calls_app.
    exact (Nat.add_0_r _). }
  destruct (String.eqb (buffer w) LOCKDOWN_CODE);
    [ destruct (lockdown_active (lockbox w))
    | destruct (String.eqb (buffer w) NORMAL_CODE) ].
  - rewrite !(count_calls_op _ ExitLockdown) by auto. now split.
  - rewrite !(count_calls_op _ EnterLockdown) by auto. now split.
  - rewrite !(count_calls_op _ TemporaryUnlock) by auto. now split.
  - unfold print. rewrite exec_emit. cbn [trace]. rewrite !count_calls_app.
    rewrite H1, H2. split; exact (Nat.add_0_r _).
Qed.

(** The calls counted after one key. *)
Lemma count_key key w :
  count_calls "process_code" (trace (exec (run_key key) w)) =
  (if String.eqb key "*" then 0
   else if Nat.leb 4 (String.length (buffer w ++ key)) then 1 else 0)
  + count_calls "process_code" (trace w) /\
  count_calls "Lockbox" (trace (exec (run_key key) w)) =
  count_calls "Lockbox" (trace w).
Proof.
  rewrite run_key_unfold. cbv zeta.
  assert (H1 : forall method,
             count_calls method (trace (exec (print ("[KEY] " ++ key)) w))
             = count_calls method (trace w)).
  { intros method. rewrite exec_print. cbn [trace]. rewrite count_calls_app.
    exact (Nat.add_0_r _). }
  destruct (String.eqb key "*").
  - rewrite exec_print. cbn [trace]. rewrite !count_calls_app.
    rewrite exec_set_buffer. cbn [trace]. rewrite !H1.
    split; [ exact (Nat.add_0_r _) | exact (Nat.add_0_r _) ].
  - destruct (Nat.leb 4 (String.length (buffer w ++ key))).
    + rewrite exec_set_buffer. cbn [trace].
      destruct (count_process_code
                  (exec (set_buffer (buffer w ++ key))
                     (exec (print ("[KEY] " ++ key)) w))) as [-> ->].
      rewrite exec_set_buffer. cbn [trace]. now rewrite !H1.
    + rewrite exec_set_buffer. cbn [trace]. now rewrite !H1.
Qed.

(** ** The buffer reset law *)

(** C4.  For a reachable world and a key of the keypad: the buffer holds at
    most three characters, none of them the star.  The star empties the
    buffer, whatever its length, and enters no classification.  A fourth
    character makes [process_code] run exactly once, on the four characters
    typed since the buffer was last emptied, and the buffer is empty after
    it whatever the code was.  An earlier character is appended and enters
    no classification. *)
Theorem buffer_reset_law w key :
  reachable w -> is_key_symbol key = true ->
  (String.length (buffer w) <= 3 /\ has_star (buffer w) = false) /\
  (key = "*"%string ->
   buffer (exec (run_key key) w) = ""%string /\
   count_calls "process_code" (trace (exec (run_key key) w)) =
   count_calls "process_code" (trace w)) /\
  (key <> "*"%string -> String.length (buffer w) = 3 ->
   buffer (exec (run_key key) w) = ""%string /\
   count_calls "process_code" (trace (exec (run_key key) w)) =
   1 + count_calls "process_code" (trace w) /\
   exec (run_key key) w =
   exec (set_buffer "")
     (exec process_code
        (mkWorld (lockbox w) (buffer w ++ key) (relay w)
           (trace w ++ [EvPrint ("[KEY] " ++ key)]))) /\
   String.length (buffer w ++ key)%string = 4 /\
   has_star (buffer w ++ key)%string = false) /\
  (key <> "*"%string -> String.length (buffer w) < 3 ->
   buffer (exec (run_key key) w) = (buffer w ++ key)%string /\
   count_calls "process_code" (trace (exec (run_key key) w)) =
   count_calls "process_code" (trace w)).
Proof.
  intros Hr Hk.
  destruct (reachable_buffer_ok w Hr) as [Hlen Hstar].
  destruct (key_symbol_shape key Hk) as [H1 Hs].
  destruct (count_key key w) as [Hc _].
  pose proof (buffer_key key w) as Hb.
  pose proof (length_append (buffer w) key) as Hl. rewrite H1 in Hl.
  split; [ split; [ lia | exact Hstar ] | ].
  split; [ | split ].
  - intros ->. rewrite Hb, Hc. now rewrite String.eqb_refl.
  - intros Hne H3. apply String.eqb_neq in Hne. rewrite Hne in Hb, Hc.
    assert (H4 : Nat.leb 4 (String.length (buffer w ++ key)) = true)
      by (apply Nat.leb_le; lia).
    rewrite H4 in Hb, Hc. split; [ exact Hb | ]. split; [ exact Hc | ].
    split; [ | split ].
    + rewrite run_key_unfold. cbv zeta. now rewrite Hne, H4.
    + lia.
    + rewrite has_star_append, Hstar, (Hs Hne). reflexivity.
  - intros Hne H3. apply String.eqb_neq in Hne. rewrite Hne in Hb, Hc.
    assert (H4 : Nat.leb 4 (String.length (buffer w ++ key)) = false)
      by (apply Nat.leb_gt; lia).
    rewrite H4 in Hb, Hc. now split.
Qed.

(** The world after the keys 1, 2, 3 from the start. *)
Definition world_three_keys : World :=
  world (run_schedule [Key "1"; Key "2"; Key "3"] initial_system).

Lemma buffer_reset_law_witness :
  buffer (exec (run_key "4") world_three_keys) = ""%string /\
  count_calls "process_code" (trace (exec (run_key "4") world_three_keys)) =
  1 + count_calls "process_code" (trace world_three_keys).
Proof.
  assert (Hr : reachable world_three_keys)
    by (apply run_schedule_reachable; [ reflexivity | apply reach_init ]).
  pose proof (buffer_reset_law world_three_keys "4" Hr eq_refl) as H.
  destruct H as (_ & _ & H & _).
  destruct H as (Hb & Hc & _); [ discriminate | reflexivity | ].
  split; [ exact Hb | exact Hc ].
Defined.

(** ** Classification *)

(** C5.  [process_code] tries the lockdown code first and toggles lockdown
    on it: [exit_lockdown] when [lockdown_active] is set, [enter_lockdown]
    otherwise.  Failing that it tries the normal code and calls
    [temporary_unlock] on it.  Any other buffer is only reported: one line
    is printed, no field is written, the relay pin is not driven, and
    lockbox and relay are as before. *)
Theorem classification_priority w :
  (buffer w = LOCKDOWN_CODE -> lockdown_active (lockbox w) = true ->
   exec process_code w = exec exit_lockdown (exec (call "process_code") w)) /\
  (buffer w = LOCKDOWN_CODE -> lockdown_active (lockbox w) = false ->
   exec process_code w = exec enter_lockdown (exec (call "process_code") w)) /\
  (buffer w <> LOCKDOWN_CODE -> buffer w = NORMAL_CODE ->
   exec process_code w = exec temporary_unlock (exec (call "process_code") w)) /\
  (buffer w <> LOCKDOWN_CODE -> buffer w <> NORMAL_CODE ->
   lockbox (exec process_code w) = lockbox w /\
   relay (exec process_code w) = relay w /\
   new_events w (exec process_code w) =
   [EvCall "process_code"; EvPrint "[INFO] INVALID CODE"] /\
   field_writes (new_events w (exec process_code w)) = [] /\
   actuator_commands (new_events w (exec process_code w)) = []).
Proof.
  rewrite process_code_unfold. cbv zeta.
  split; [ | split; [ | split ] ].
  - intros Hl Ha. apply String.eqb_eq in Hl. now rewrite Hl, Ha.
  - intros Hl Ha. apply String.eqb_eq in Hl. now rewrite Hl, Ha.
  - intros Hl Hn. apply String.eqb_neq in Hl. apply String.eqb_eq in Hn.
    now rewrite Hl, Hn.
  - intros Hl Hn. apply String.eqb_neq in Hl, Hn. rewrite Hl, Hn.
    split; [ reflexivity | split; [ reflexivity | ] ].
    erewrite new_events_app; [ repeat split | ].
    unfold call, print. rewrite !exec_emit. cbn [trace].
    now rewrite <- app_assoc.
Qed.

(** A world in lockdown with the lockdown code in the buffer, one out of
    lockdown with the normal code, and one with a code that matches
    neither. *)
Definition world_code (l : Lockbox) (code : string) : World :=
  mkWorld l code LOW [].

Lemma classification_priority_witness :
  exec process_code (world_code (mkLockbox LOCKDOWN true false) "9999") =
  exec exit_lockdown
    (exec (call "process_code")
       (world_code (mkLockbox LOCKDOWN true false) "9999")) /\
  exec process_code (world_code Lockbox_init "9999") =
  exec enter_lockdown
    (exec (call "process_code") (world_code Lockbox_init "9999")) /\
  exec process_code (world_code Lockbox_init "1234") =
  exec temporary_unlock
    (exec (call "process_code") (world_code Lockbox_init "1234")) /\
  lockbox (exec process_code (world_code Lockbox_init "1111"))
  = lockbox (world_code Lockbox_init "1111").
Proof.
  split; [ | split; [ | split ] ].
  - apply (classification_priority
             (world_code (mkLockbox LOCKDOWN true false) "9999"));
      reflexivity.
  - apply (classification_priority (world_code Lockbox_init "9999"));
      reflexivity.
  - apply (classification_priority (world_code Lockbox_init "1234"));
      [ discriminate | reflexivity ].
  - apply (classification_priority (world_code Lockbox_init "1111"));
      discriminate.
Defined.

(** ** The toggle law *)

(** The lockdown code as the keypad delivers it. *)
Definition lockdown_keys : list string := ["9"; "9"; "9"; "9"].

(** A key that is appended, and a key that completes a code. *)
Lemma run_key_append key w :
  String.eqb key "*" = false ->
  Nat.leb 4 (String.length (buffer w ++ key)) = false ->
  exec (run_key key) w =
  mkWorld (lockbox w) (buffer w ++ key) (relay w)
    (trace w ++ [EvPrint ("[KEY] " ++ key)]).
Proof. intros H1 H2. rewrite run_key_unfold. cbv zeta. now rewrite H1, H2. Qed.

Lemma run_key_classify key w :
  String.eqb key "*" = false ->
  Nat.leb 4 (String.length (buffer w ++ key)) = true ->
  exec (run_key key) w =
  exec (set_buffer "")
    (exec process_code
       (mkWorld (lockbox w) (buffer w ++ key) (relay w)
          (trace w ++ [EvPrint ("[KEY] " ++ key)]))).
Proof. intros H1 H2. rewrite run_key_unfold. cbv zeta. now rewrite H1, H2. Qed.

(** Run the innermost pending key, by the lemma [lem] on it. *)
Ltac press_key lem :=
  match goal with
  | |- context [exec (run_key ?k) (mkWorld ?l ?b ?r ?t)] =>
      rewrite (lem k (mkWorld l b r t)) by reflexivity;
      cbn [lockbox buffer relay trace append]
  end.

(** Four keys typed into an empty buffer reach [process_code] as one code. *)
Lemma lockdown_keys_classified w :
  buffer w = ""%string ->
  exec (run_keys lockdown_keys) w =
  exec (set_buffer "")
    (exec process_code
       (mkWorld (lockbox w) LOCKDOWN_CODE (relay w)
          (trace w ++ [EvPrint "[KEY] 9"; EvPrint "[KEY] 9";
                       EvPrint "[KEY] 9"; EvPrint "[KEY] 9"]))).
Proof.
  destruct w as [l b r t]. cbn [buffer]. intros ->.
  unfold lockdown_keys, run_keys. rewrite !exec_seq, exec_ret.
  do 3 (press_key run_key_append).
  press_key run_key_classify.
  rewrite <- !app_assoc. reflexivity.
Qed.

(** C6.  From a reachable world in mode [NORMAL] with [lockdown_active]
    clear, typing the lockdown code twice in a row first calls
    [enter_lockdown], then [exit_lockdown], and ends in mode [NORMAL] with
    [lockdown_active] clear; the relay is low before the first code and
    after the second (and in between). *)
Theorem toggle_law w :
  reachable w ->
  state (lockbox w) = NORMAL ->
  lockdown_active (lockbox w) = false ->
  buffer w = ""%string ->
  locked w /\
  calls (new_events w (exec (run_keys lockdown_keys) w))
  = ["process_code"; "enter_lockdown"]%string /\
  state (lockbox (exec (run_keys lockdown_keys) w)) = LOCKDOWN /\
  lockdown_active (lockbox (exec (run_keys lockdown_keys) w)) = true /\
  locked (exec (run_keys lockdown_keys) w) /\
  calls (new_events (exec (run_keys lockdown_keys) w)
           (exec (run_keys lockdown_keys) (exec (run_keys lockdown_keys) w)))
  = ["process_code"; "exit_lockdown"]%string /\
  state (lockbox (exec (run_keys lockdown_keys) (exec (run_keys lockdown_keys) w)))
  = NORMAL /\
  lockdown_active
    (lockbox (exec (run_keys lockdown_keys) (exec (run_keys lockdown_keys) w)))
  = false /\
  locked (exec (run_keys lockdown_keys) (exec (run_keys lockdown_keys) w)).
Proof.
  intros Hr Hm Hl Hb.
  assert (Hlocked : locked w).
  { apply consistent_locked; [ now apply reachable_consistent | ].
    rewrite Hm. discriminate. }
  split; [ exact Hlocked | ].
  rewrite (lockdown_keys_classified w Hb).
  set (w0 := mkWorld (lockbox w) LOCKDOWN_CODE (relay w) _).
  assert (E1 : exec (set_buffer "") (exec process_code w0) =
               mkWorld (mkLockbox LOCKDOWN true (window_active (lockbox w)))
                 "" LOW
                 (trace w ++
                  [EvPrint "[KEY] 9"; EvPrint "[KEY] 9"; EvPrint "[KEY] 9";
                   EvPrint "[KEY] 9"; EvCall "process_code";
                   EvCall "enter_lockdown"; EvSetState LOCKDOWN;
                   EvSetLockdownActive true; EvOutput RELAY_PIN LOW;
                   EvPrint "[STATE] LOCKDOWN"])).
  { rewrite process_code_unfold. subst w0. cbv zeta. cbn [buffer lockbox].
    rewrite Hl. rewrite String.eqb_refl. rewrite enter_lockdown_spec.
    unfold call. rewrite exec_emit, exec_set_buffer.
    cbn [buffer lockbox relay trace window_active].
    rewrite <- !app_assoc. reflexivity. }
  rewrite E1. clear w0 E1.
  set (w1 := mkWorld _ "" LOW _).
  rewrite (lockdown_keys_classified w1 eq_refl).
  set (w2 := mkWorld (lockbox w1) LOCKDOWN_CODE (relay w1) _).
  assert (E2 : exec (set_buffer "") (exec process_code w2) =
               mkWorld (mkLockbox NORMAL false (window_active (lockbox w)))
                 "" LOW
                 (trace w1 ++
                  [EvPrint "[KEY] 9"; EvPrint "[KEY] 9"; EvPrint "[KEY] 9";
                   EvPrint "[KEY] 9"; EvCall "process_code";
                   EvCall "exit_lockdown"; EvSetState NORMAL;
                   EvSetLockdownActive false; EvOutput RELAY_PIN LOW;
                   EvPrint "[STATE] LOCKDOWN CLEARED → NORMAL MODE"])).
  { rewrite process_code_unfold. subst w2. cbv zeta. cbn [buffer lockbox].
    subst w1. cbn [lockbox lockdown_active].
    rewrite String.eqb_refl. rewrite exit_lockdown_spec.
    unfold call. rewrite exec_emit, exec_set_buffer.
    cbn [buffer lockbox relay trace window_active].
    rewrite <- !app_assoc. reflexivity. }
  rewrite E2. clear w2 E2.
  erewrite (new_events_app w w1) by reflexivity.
  erewrite (new_events_app w1) by reflexivity.
  repeat split.
Qed.

Lemma toggle_law_witness :
  locked initial_world /\
  calls (new_events initial_world (exec (run_keys lockdown_keys) initial_world))
  = ["process_code"; "enter_lockdown"]%string /\
  state (lockbox (exec (run_keys lockdown_keys) initial_world)) = LOCKDOWN /\
  lockdown_active (lockbox (exec (run_keys lockdown_keys) initial_world)) = true /\
  locked (exec (run_keys lockdown_keys) initial_world) /\
  calls (new_events (exec (run_keys lockdown_keys) initial_world)
           (exec (run_keys lockdown_keys)
              (exec (run_keys lockdown_keys) initial_world)))
  = ["process_code"; "exit_lockdown"]%string /\
  state (lockbox (exec (run_keys lockdown_keys)
                    (exec (run_keys lockdown_keys) initial_world)))
  = NORMAL /\
  lockdown_active
    (lockbox (exec (run_keys lockdown_keys)
                (exec (run_keys lockdown_keys) initial_world)))
  = false /\
  locked (exec (run_keys lockdown_keys)
            (exec (run_keys lockdown_keys) initial_world)).
Proof.
  apply (toggle_law initial_world reach_init); reflexivity.
Defined.

(** * The window thread against lockdown *)

(** ** Closing a window after lockdown was entered *)

(** C7.  A window is opened by [trigger_window_unlock]; the interpreter
    then makes any transitions [pre], enters lockdown, and makes any
    transitions [post]; when the window thread calls [end_window_unlock]
    the relay ends low, and the last level driven on its pin is low. *)
Theorem window_end_locks w pre post :
  locked
    (exec end_window_unlock
       (exec (run_ops post)
          (exec enter_lockdown
             (exec (run_ops pre) (exec trigger_window_unlock w))))) /\
  actuator_commands
    (new_events
       (exec (run_ops post)
          (exec enter_lockdown
             (exec (run_ops pre) (exec trigger_window_unlock w))))
       (exec end_window_unlock
          (exec (run_ops post)
             (exec enter_lockdown
                (exec (run_ops pre) (exec trigger_window_unlock w))))))
  = [LOW].
Proof.
  rewrite end_window_unlock_spec. erewrite new_events_app by reflexivity.
  split; reflexivity.
Qed.

(** ** Requests that lose against a mode of higher priority *)

(** The window thread passes its test, the lockdown code is typed, and the
    window thread is about to call [trigger_window_unlock]. *)
Definition system_trigger_in_lockdown : System :=
  run_schedule [Window; Key "9"; Key "9"; Key "9"; Key "9"] initial_system.

(** C8, as worded, fails: a [trigger_window_unlock] that arrives while
    lockdown is active prints nothing. *)
Lemma conflict_logging_counterexample :
  reachable (world system_trigger_in_lockdown) /\
  lockdown_active (lockbox (world system_trigger_in_lockdown)) = true /\
  calls (new_events (world system_trigger_in_lockdown)
           (world (sys_step system_trigger_in_lockdown Window)))
  = ["trigger_window_unlock"]%string /\
  ~ exists line,
      In line
        (log_lines
           (new_events (world system_trigger_in_lockdown)
              (world (sys_step system_trigger_in_lockdown Window)))).
Proof.
  split; [ | split; [ | split ] ].
  - apply run_schedule_reachable; [ reflexivity | apply reach_init ].
  - reflexivity.
  - reflexivity.
  - intros [line H]. exact H.
Qed.

(** C8, amended.  Every [temporary_unlock] that loses is logged: with
    [lockdown_active] set it prints the line on lockdown, otherwise with
    [window_active] set the line on the window.  A
    [trigger_window_unlock] with [lockdown_active] set is dropped without
    a line. *)
Theorem conflict_logging w :
  (lockdown_active (lockbox w) = true ->
   log_lines (new_events w (exec temporary_unlock w))
   = ["[INFO] LOCKDOWN ACTIVE - IGNORING NORMAL UNLOCK"]%string) /\
  (lockdown_active (lockbox w) = false -> window_active (lockbox w) = true ->
   log_lines (new_events w (exec temporary_unlock w))
   = ["[INFO] WINDOW UNLOCK ACTIVE - NO NEED FOR TEMPORARY UNLOCK"]%string) /\
  (lockdown_active (lockbox w) = true ->
   log_lines (new_events w (exec trigger_window_unlock w)) = []).
Proof.
  rewrite temporary_unlock_spec, trigger_window_unlock_spec.
  split; [ | split ].
  - intros ->. now erewrite new_events_app by reflexivity.
  - intros -> ->. now erewrite new_events_app by reflexivity.
  - intros ->. now erewrite new_events_app by reflexivity.
Qed.

Lemma conflict_logging_witness :
  log_lines
    (new_events world_lockdown_in_window
       (exec temporary_unlock world_lockdown_in_window))
  = ["[INFO] LOCKDOWN ACTIVE - IGNORING NORMAL UNLOCK"]%string /\
  log_lines
    (new_events world_window_open (exec temporary_unlock world_window_open))
  = ["[INFO] WINDOW UNLOCK ACTIVE - NO NEED FOR TEMPORARY UNLOCK"]%string /\
  log_lines
    (new_events world_lockdown_in_window
       (exec trigger_window_unlock world_lockdown_in_window)) = [].
Proof.
  split; [ | split ].
  - apply (conflict_logging world_lockdown_in_window). reflexivity.
  - apply (conflict_logging world_window_open); reflexivity.
  - apply (conflict_logging world_lockdown_in_window). reflexivity.
Defined.

(** * The life of the lockbox *)






(** ** main and the objects it makes *)

















(** * The temporary unlock *)

(** C10.  In a reachable world with both flags clear the mode is [NORMAL],
    and [temporary_unlock] leaves the lockbox and the buffer as they are.
    What it does, in order: drive the relay high, print, sleep for
    [TEMP_UNLOCK_TIME], drive the relay low, print.  It writes no field of
    the lockbox at any point, and the relay is low when it returns. *)
Theorem temporary_unlock_frame w :
  reachable w ->
  lockdown_active (lockbox w) = false ->
  window_active (lockbox w) = false ->
  state (lockbox w) = NORMAL /\
  lockbox (exec temporary_unlock w) = lockbox w /\
  buffer (exec temporary_unlock w) = buffer w /\
  new_events w (exec temporary_unlock w) =
  [EvCall "temporary_unlock"; EvOutput RELAY_PIN HIGH;
   EvPrint "[STATE] TEMPORARY UNLOCK for 10 seconds";
   EvSleep TEMP_UNLOCK_TIME; EvOutput RELAY_PIN LOW;
   EvPrint "[STATE] TEMPORARY UNLOCK ENDED → NORMAL MODE"] /\
  field_writes (new_events w (exec temporary_unlock w)) = [] /\
  locked (exec temporary_unlock w).
Proof.
  intros Hr Hl Hw.
  split; [ apply consistent_idle; auto using reachable_consistent | ].
  rewrite temporary_unlock_spec, Hl, Hw.
  erewrite new_events_app by reflexivity.
  repeat split.
Qed.

Lemma temporary_unlock_frame_witness :
  state (lockbox initial_world) = NORMAL /\
  lockbox (exec temporary_unlock initial_world) = lockbox initial_world /\
  buffer (exec temporary_unlock initial_world) = buffer initial_world /\
  new_events initial_world (exec temporary_unlock initial_world) =
  [EvCall "temporary_unlock"; EvOutput RELAY_PIN HIGH;
   EvPrint "[STATE] TEMPORARY UNLOCK for 10 seconds";
   EvSleep TEMP_UNLOCK_TIME; EvOutput RELAY_PIN LOW;
   EvPrint "[STATE] TEMPORARY UNLOCK ENDED → NORMAL MODE"] /\
  field_writes (new_events initial_world (exec temporary_unlock initial_world))
  = [] /\
  locked (exec temporary_unlock initial_world).
Proof.
  apply (temporary_unlock_frame initial_world reach_init); reflexivity.
Defined.

(** * Further properties of the lock state machine *)

(** ** New events, step after step *)

Definition extends (w w' : World) : Prop :=
  trace w' = trace w ++ new_events w w'.

Lemma extends_intro w w' evs : trace w' = trace w ++ evs -> extends w w'.
Proof. intros H. unfold extends. now rewrite (new_events_app w w' evs H). Qed.

Lemma extends_refl w : extends w w.
Proof. apply (extends_intro w w []). now rewrite app_nil_r. Qed.

Lemma new_events_refl w : new_events w w = [].
Proof. apply new_events_app. now rewrite app_nil_r. Qed.

Lemma new_events_trans w w1 w2 :
  extends w w1 -> extends w1 w2 ->
  new_events w w2 = new_events w w1 ++ new_events w1 w2.
Proof.
  unfold extends. intros H1 H2. apply new_events_app.
  now rewrite H2, H1 at 1; rewrite app_assoc.
Qed.

Lemma extends_trans w w1 w2 : extends w w1 -> extends w1 w2 -> extends w w2.
Proof.
  intros H1 H2. apply (extends_intro w w2 (new_events w w1 ++ new_events w1 w2)).
  unfold extends in H1, H2. now rewrite H2, H1 at 1; rewrite app_assoc.
Qed.

Lemma extends_op o w : extends w (exec (apply_op o) w).
Proof.
  destruct o; cbn [apply_op];
    [ rewrite enter_lockdown_spec | rewrite exit_lockdown_spec
    | rewrite trigger_window_unlock_spec | rewrite end_window_unlock_spec
    | rewrite temporary_unlock_spec ];
    repeat match goal with |- context [if ?b then _ else _] => destruct b end;
    eapply extends_intro; reflexivity.
Qed.

Lemma actuator_commands_app evs1 evs2 :
  actuator_commands (evs1 ++ evs2) =
  actuator_commands evs1 ++ actuator_commands evs2.
Proof.
  induction evs1 as [ | e evs1 IH ]; [ reflexivity | ].
  destruct e; cbn; try exact IH.
  destruct (Nat.eqb pin RELAY_PIN); cbn; now rewrite ?IH.
Qed.

(** The levels each transition drives on the relay pin. *)
Lemma actuator_commands_op o w :
  actuator_commands (new_events w (exec (apply_op o) w)) =
  match o with
  | EnterLockdown | ExitLockdown | EndWindowUnlock => [LOW]
  | TriggerWindowUnlock =>
      if lockdown_active (lockbox w) then [] else [HIGH]
  | TemporaryUnlock =>
      if lockdown_active (lockbox w) then []
      else if window_active (lockbox w) then [] else [HIGH; LOW]
  end.
Proof.
  destruct o; cbn [apply_op];
    [ rewrite enter_lockdown_spec | rewrite exit_lockdown_spec
    | rewrite trigger_window_unlock_spec | rewrite end_window_unlock_spec
    | rewrite temporary_unlock_spec ];
    repeat match goal with |- context [if ?b then _ else _] => destruct b end;
    erewrite new_events_app by reflexivity; reflexivity.
Qed.

(** [process_code]: its entry, then the events of what it picks. *)
Lemma extends_process_code w : extends w (exec process_code w).
Proof.
  rewrite process_code_unfold. cbv zeta.
  assert (H : extends w (exec (call "process_code") w))
    by (eapply extends_intro; reflexivity).
  destruct (String.eqb (buffer w) LOCKDOWN_CODE);
    [ destruct (lockdown_active (lockbox w))
    | destruct (String.eqb (buffer w) NORMAL_CODE) ].
  - exact (extends_trans _ _ _ H (extends_op ExitLockdown _)).
  - exact (extends_trans _ _ _ H (extends_op EnterLockdown _)).
  - exact (extends_trans _ _ _ H (extends_op TemporaryUnlock _)).
  - eapply extends_intro. unfold call, print. rewrite !exec_emit. cbn [trace].
    now rewrite <- app_assoc.
Qed.

Lemma actuator_commands_process_code w :
  actuator_commands (new_events w (exec process_code w)) =
  if String.eqb (buffer w) LOCKDOWN_CODE then [LOW]
  else if String.eqb (buffer w) NORMAL_CODE then
         if lockdown_active (lockbox w) then []
         else if window_active (lockbox w) then [] else [HIGH; LOW]
       else [].
Proof.
  rewrite process_code_unfold. cbv zeta.
  assert (H : extends w (exec (call "process_code") w))
    by (eapply extends_intro; reflexivity).
  assert (H0 : actuator_commands (new_events w (exec (call "process_code") w)) = [])
    by (erewrite new_events_app by reflexivity; reflexivity).
  destruct (String.eqb (buffer w) LOCKDOWN_CODE);
    [ destruct (lockdown_active (lockbox w)) eqn:Hl
    | destruct (String.eqb (buffer w) NORMAL_CODE) ].
  - pose proof (extends_op ExitLockdown (exec (call "process_code") w)) as E.
    cbn [apply_op] in E.
    rewrite (new_events_trans _ _ _ H E), actuator_commands_app, H0.
    exact (actuator_commands_op ExitLockdown _).
  - pose proof (extends_op EnterLockdown (exec (call "process_code") w)) as E.
    cbn [apply_op] in E.
    rewrite (new_events_trans _ _ _ H E), actuator_commands_app, H0.
    exact (actuator_commands_op EnterLockdown _).
  - pose proof (extends_op TemporaryUnlock (exec (call "process_code") w)) as E.
    cbn [apply_op] in E.
    rewrite (new_events_trans _ _ _ H E), actuator_commands_app, H0.
    exact (actuator_commands_op TemporaryUnlock _).
  - rewrite (new_events_app w _
               [EvCall "process_code"; EvPrint "[INFO] INVALID CODE"]);
      [ reflexivity | ].
    unfold call, print. rewrite !exec_emit. cbn [trace].
    now rewrite <- app_assoc.
Qed.

Lemma extends_key key w : extends w (exec (run_key key) w).
Proof.
  rewrite run_key_unfold. cbv zeta.
  destruct (String.eqb key "*").
  - eapply extends_intro. rewrite !exec_print, exec_set_buffer. cbn [trace].
    now rewrite <- app_assoc.
  - destruct (Nat.leb 4 (String.length (buffer w ++ key))).
    + eapply extends_trans; [ | eapply extends_trans ].
      * apply (extends_intro w (exec (set_buffer (buffer w ++ key))
                                  (exec (print ("[KEY] " ++ key)) w))
                 [EvPrint ("[KEY] " ++ key)]).
        reflexivity.
      * apply extends_process_code.
      * eapply extends_intro. rewrite exec_set_buffer. cbn [trace].
        now rewrite app_nil_r.
    + eapply extends_intro. reflexivity.
Qed.

(** The levels one key makes the interpreter drive on the relay pin. *)
Lemma actuator_commands_key key w :
  actuator_commands (new_events w (exec (run_key key) w)) =
  if String.eqb key "*" then []
  else if Nat.leb 4 (String.length (buffer w ++ key)) then
         if String.eqb (buffer w ++ key) LOCKDOWN_CODE then [LOW]
         else if String.eqb (buffer w ++ key) NORMAL_CODE then
                if lockdown_active (lockbox w) then []
                else if window_active (lockbox w) then [] else [HIGH; LOW]
              else []
       else [].
Proof.
  rewrite run_key_unfold. cbv zeta.
  destruct (String.eqb key "*").
  - rewrite (new_events_app w _
               [EvPrint ("[KEY] " ++ key); EvPrint "[BUFFER CLEARED]"]);
      [ reflexivity | ].
    rewrite !exec_print, exec_set_buffer. cbn [trace]. now rewrite <- app_assoc.
  - destruct (Nat.leb 4 (String.length (buffer w ++ key))).
    + set (w2 := exec (set_buffer (buffer w ++ key))
                   (exec (print ("[KEY] " ++ key)) w)).
      assert (H1 : extends w w2)
        by (apply (extends_intro w w2 [EvPrint ("[KEY] " ++ key)]); reflexivity).
      assert (H2 : new_events w w2 = [EvPrint ("[KEY] " ++ key)])
        by (apply new_events_app; reflexivity).
      assert (H3 : new_events w (exec (set_buffer "") (exec process_code w2))
                   = new_events w (exec process_code w2)) by reflexivity.
      rewrite H3.
      rewrite (new_events_trans _ _ _ H1 (extends_process_code w2)).
      rewrite actuator_commands_app, H2.
      exact (actuator_commands_process_code w2).
    + erewrite new_events_app by reflexivity. reflexivity.
Qed.

(** ** When the relay is high *)

(** X1.  Between two steps the relay is high exactly in mode [WINDOW]; in
    particular it is low whenever [lockdown_active] is set. *)
Theorem unlocked_iff_window w :
  reachable w ->
  (relay w = HIGH <-> state (lockbox w) = WINDOW) /\
  (lockdown_active (lockbox w) = true -> locked w).
Proof.
  intros Hr. apply reachable_consistent in Hr. revert Hr.
  destruct w as [[m ld win] b r t]. unfold consistent, locked. cbn.
  destruct m, ld, win, r; intros H; try discriminate H;
    (split; [ split; intros E; try reflexivity; discriminate E | ]);
    intros E; try reflexivity; discriminate E.
Qed.

Lemma unlocked_iff_window_witness :
  (relay world_window_open = HIGH <-> state (lockbox world_window_open) = WINDOW)
  /\ (lockdown_active (lockbox world_window_open) = true ->
      locked world_window_open).
Proof.
  apply (unlocked_iff_window world_window_open).
  apply run_schedule_reachable; [ vm_compute; reflexivity | apply reach_init ].
Defined.

Lemma actuator_commands_sys_step s a :
  actuator_commands (new_events (world s) (world (sys_step s a))) =
  match a with
  | Key key =>
      actuator_commands (new_events (world s) (exec (run_key key) (world s)))
  | Window =>
      match window_pc s with
      | AtInterval => []
      | AtTrigger =>
          if lockdown_active (lockbox (world s)) then [] else [HIGH]
      | AtWindow => [LOW]
      end
  end.
Proof.
  destruct a as [ key | ]; [ reflexivity | ].
  rewrite sys_step_window. destruct (window_pc s); cbn [world].
  - now rewrite new_events_refl.
  - exact (actuator_commands_op TriggerWindowUnlock (world s)).
  - exact (actuator_commands_op EndWindowUnlock (world s)).
Qed.

(** X2.  While [lockdown_active] is set no step of either thread, and no
    transition, drives the relay pin high. *)
Theorem no_unlock_in_lockdown s a o :
  lockdown_active (lockbox (world s)) = true ->
  ~ In HIGH (actuator_commands (new_events (world s) (world (sys_step s a)))) /\
  ~ In HIGH
      (actuator_commands (new_events (world s) (exec (apply_op o) (world s)))).
Proof.
  intros Hl. split.
  - rewrite actuator_commands_sys_step. destruct a as [ key | ].
    + rewrite actuator_commands_key, Hl.
      repeat match goal with |- context [if ?b then _ else _] => destruct b end;
        cbn; intuition discriminate.
    + rewrite Hl. destruct (window_pc s); cbn; intuition discriminate.
  - rewrite actuator_commands_op, Hl. destruct o; cbn; intuition discriminate.
Qed.

Lemma no_unlock_in_lockdown_witness :
  ~ In HIGH
      (actuator_commands
         (new_events (world system_trigger_in_lockdown)
            (world (sys_step system_trigger_in_lockdown Window)))) /\
  ~ In HIGH
      (actuator_commands
         (new_events (world system_trigger_in_lockdown)
            (exec (apply_op TemporaryUnlock)
               (world system_trigger_in_lockdown)))).
Proof.
  apply (no_unlock_in_lockdown system_trigger_in_lockdown Window TemporaryUnlock).
  vm_compute. reflexivity.
Defined.

(** X3.  The interpreter drives the relay high on one occasion only: the
    key completes the normal code while neither flag is set.  It then
    drives it low again within the same step. *)
Theorem unlock_needs_normal_code w key :
  In HIGH (actuator_commands (new_events w (exec (run_key key) w))) ->
  (buffer w ++ key)%string = NORMAL_CODE /\
  lockdown_active (lockbox w) = false /\
  window_active (lockbox w) = false /\
  actuator_commands (new_events w (exec (run_key key) w)) = [HIGH; LOW].
Proof.
  rewrite actuator_commands_key.
  destruct (String.eqb key "*"); [ intros [] | ].
  destruct (Nat.leb 4 (String.length (buffer w ++ key))); [ | intros [] ].
  destruct (String.eqb (buffer w ++ key) LOCKDOWN_CODE);
    [ cbn; intuition discriminate | ].
  destruct (String.eqb_spec (buffer w ++ key) NORMAL_CODE) as [ E | _ ];
    [ | intros [] ].
  destruct (lockdown_active (lockbox w)); [ intros [] | ].
  destruct (window_active (lockbox w)); [ intros [] | ].
  intros _. repeat split. exact E.
Qed.

Lemma unlock_needs_normal_code_witness :
  (buffer world_three_keys ++ "4")%string = NORMAL_CODE /\
  lockdown_active (lockbox world_three_keys) = false /\
  window_active (lockbox world_three_keys) = false /\
  actuator_commands
    (new_events world_three_keys (exec (run_key "4") world_three_keys))
  = [HIGH; LOW].
Proof.
  apply (unlock_needs_normal_code world_three_keys "4").
  vm_compute. left. reflexivity.
Defined.

(** ** The relay after a step *)

Lemma relay_op o w :
  relay (exec (apply_op o) w) =
  last (actuator_commands (new_events w (exec (apply_op o) w))) (relay w).
Proof.
  rewrite actuator_commands_op.
  destruct o; cbn [apply_op];
    [ rewrite enter_lockdown_spec | rewrite exit_lockdown_spec
    | rewrite trigger_window_unlock_spec | rewrite end_window_unlock_spec
    | rewrite temporary_unlock_spec ];
    repeat match goal with |- context [if ?b then _ else _] => destruct b end;
    reflexivity.
Qed.

Lemma relay_process_code w :
  relay (exec process_code w) =
  last (actuator_commands (new_events w (exec process_code w))) (relay w).
Proof.
  rewrite actuator_commands_process_code, process_code_unfold. cbv zeta.
  destruct (String.eqb (buffer w) LOCKDOWN_CODE);
    [ destruct (lockdown_active (lockbox w)) eqn:Hl
    | destruct (String.eqb (buffer w) NORMAL_CODE) ].
  - now rewrite exit_lockdown_spec.
  - now rewrite enter_lockdown_spec.
  - rewrite temporary_unlock_spec. cbn [lockbox exec].
    change (lockbox (exec (call "process_code") w)) with (lockbox w).
    destruct (lockdown_active (lockbox w)); [ reflexivity | ].
    destruct (window_active (lockbox w)); reflexivity.
  - reflexivity.
Qed.

Lemma relay_key key w :
  relay (exec (run_key key) w) =
  last (actuator_commands (new_events w (exec (run_key key) w))) (relay w).
Proof.
  rewrite actuator_commands_key, run_key_unfold. cbv zeta.
  destruct (String.eqb key "*"); [ reflexivity | ].
  destruct (Nat.leb 4 (String.length (buffer w ++ key))); [ | reflexivity ].
  rewrite exec_set_buffer. cbn [relay]. rewrite relay_process_code.
  now rewrite actuator_commands_process_code.
Qed.

(** X5.  The interpreter never leaves the relay high of its own doing: if
    the relay is high after a key, it was high before it. *)
Theorem key_never_leaves_unlocked w key :
  relay (exec (run_key key) w) = HIGH -> relay w = HIGH.
Proof.
  rewrite relay_key, actuator_commands_key.
  repeat match goal with |- context [if ?b then _ else _] => destruct b end;
    cbn; intros E; try exact E; discriminate E.
Qed.

Lemma key_never_leaves_unlocked_witness : relay world_window_open = HIGH.
Proof.
  apply (key_never_leaves_unlocked world_window_open "1").
  vm_compute. reflexivity.
Defined.

(** ** Who changes the flags *)

(** No buffer ends the lockdown code with the clear key. *)
Lemma star_not_in_lockdown_code (b : string) :
  (b ++ "*")%string <> LOCKDOWN_CODE.
Proof.
  destruct b as [ | c1 [ | c2 [ | c3 [ | c4 b ] ] ] ]; cbn; intros E;
    try discriminate E.
  injection E as _ _ _ _ E. destruct b; discriminate E.
Qed.

(** The flags after one step of the window thread. *)
Lemma flags_window s :
  lockdown_active (lockbox (world (sys_step s Window))) =
  lockdown_active (lockbox (world s)).
Proof.
  rewrite sys_step_window. destruct (window_pc s); cbn [world].
  - reflexivity.
  - rewrite trigger_window_unlock_spec.
    destruct (lockdown_active (lockbox (world s))) eqn:E; [ exact E | reflexivity ].
  - now rewrite end_window_unlock_spec.
Qed.

(** X6.  A step changes [lockdown_active] exactly when it is a key that
    completes the lockdown code: the window thread never sets or clears
    lockdown, and the interpreter does so on that code only, in whatever
    mode it is typed. *)
Theorem lockdown_changes_on_code_only s a :
  lockdown_active (lockbox (world (sys_step s a))) <>
  lockdown_active (lockbox (world s))
  <->
  exists key, a = Key key /\ (buffer (world s) ++ key)%string = LOCKDOWN_CODE.
Proof.
  split.
  - destruct a as [ key | ]; [ | now rewrite flags_window ].
    cbn [sys_step world]. destruct (flags_key key (world s)) as [-> _].
    destruct (String.eqb key "*"); [ congruence | ].
    destruct (Nat.leb 4 (String.length (buffer (world s) ++ key)));
      [ | congruence ].
    destruct (String.eqb_spec (buffer (world s) ++ key) LOCKDOWN_CODE) as [E | _];
      [ | congruence ].
    intros _. now exists key.
  - intros (key & -> & E). cbn [sys_step world].
    destruct (flags_key key (world s)) as [-> _].
    destruct (String.eqb_spec key "*") as [-> | _ ];
      [ now apply star_not_in_lockdown_code in E | ].
    rewrite E. cbn. destruct (lockdown_active (lockbox (world s))); discriminate.
Qed.

Lemma lockdown_changes_on_code_only_witness :
  lockdown_active
    (lockbox (world (sys_step (mkSystem (world_code Lockbox_init "999") AtWindow)
                       (Key "9"))))
  <> lockdown_active (lockbox (world_code Lockbox_init "999")).
Proof.
  apply (lockdown_changes_on_code_only
           (mkSystem (world_code Lockbox_init "999") AtWindow) (Key "9")).
  exists "9"%string. split; reflexivity.
Defined.

(** ** The window thread closes what it opens *)

Definition window_pending (s : System) : Prop :=
  consistent (world s) = true /\
  (window_active (lockbox (world s)) = true -> window_pc s = AtWindow).

Lemma window_pending_step s a :
  window_pending s -> window_pending (sys_step s a).
Proof.
  intros [Hc Hp]. destruct a as [ key | ].
  - split; cbn [sys_step world window_pc].
    + now apply consistent_key.
    + destruct (flags_key key (world s)) as [_ ->]. exact Hp.
  - rewrite sys_step_window. destruct (window_pc s) eqn:Hpc; cbn [world window_pc].
    + split; [ exact Hc | ]. intros Hw. specialize (Hp Hw). discriminate Hp.
    + split; [ exact (consistent_op TriggerWindowUnlock _ Hc) | reflexivity ].
    + split; [ exact (consistent_op EndWindowUnlock _ Hc) | ].
      rewrite end_window_unlock_spec. cbn. discriminate.
Qed.

Lemma window_pending_run sched s :
  window_pending s -> window_pending (run_schedule sched s).
Proof.
  revert s. induction sched as [ | a sched IH ]; intros s H; [ exact H | ].
  cbn [run_schedule fold_left]. apply IH. now apply window_pending_step.
Qed.

(** X7.  Between two steps of a schedule of the two threads, a step being
    one whole iteration of the interpreter's loop or one access of the
    window thread to the lockbox: whenever [window_active] is set, the
    window thread stands before its [end_window_unlock]; and whenever the
    relay is high at such a point, the next step of the window thread is
    that call, which drives the relay low and clears [window_active].
    (Within an iteration of the interpreter the relay is high during the
    sleep of [temporary_unlock] as well; that is not a point between two
    steps.) *)
Theorem open_window_is_closed sched :
  (window_active (lockbox (world (run_schedule sched initial_system))) = true ->
   window_pc (run_schedule sched initial_system) = AtWindow) /\
  (relay (world (run_schedule sched initial_system)) = HIGH ->
   calls (new_events (world (run_schedule sched initial_system))
            (world (sys_step (run_schedule sched initial_system) Window)))
   = ["end_window_unlock"]%string /\
   locked (world (sys_step (run_schedule sched initial_system) Window)) /\
   window_active
     (lockbox (world (sys_step (run_schedule sched initial_system) Window)))
   = false).
Proof.
  assert (H : window_pending (run_schedule sched initial_system)).
  { apply window_pending_run. split; [ reflexivity | discriminate ]. }
  destruct H as [Hc Hp]. split; [ exact Hp | ].
  set (s := run_schedule sched initial_system) in *. intros Hr.
  assert (Hw : window_active (lockbox (world s)) = true).
  { revert Hc Hr. destruct (world s) as [[m ld win] b r t].
    unfold consistent. cbn. destruct m, ld, win, r; congruence. }
  rewrite sys_step_window, (Hp Hw). cbn [world].
  rewrite end_window_unlock_spec. erewrite new_events_app by reflexivity.
  repeat split.
Qed.

Lemma open_window_is_closed_witness :
  window_pc (run_schedule (firstn 6 race_schedule) initial_system) = AtWindow.
Proof.
  apply (open_window_is_closed (firstn 6 race_schedule)).
  vm_compute. reflexivity.
Defined.

(** ** A window flag that outlives its window *)

(** X8.  When lockdown is entered and left again while [window_active] is
    set, the relay is low and the mode is [NORMAL], yet [temporary_unlock]
    takes the window for open: it prints that no unlock is needed and
    leaves the relay low. *)
Theorem stale_window_refuses_unlock w :
  window_active (lockbox w) = true ->
  lockbox (exec exit_lockdown (exec enter_lockdown w))
  = mkLockbox NORMAL false true /\
  locked (exec exit_lockdown (exec enter_lockdown w)) /\
  log_lines
    (new_events (exec exit_lockdown (exec enter_lockdown w))
       (exec temporary_unlock (exec exit_lockdown (exec enter_lockdown w))))
  = ["[INFO] WINDOW UNLOCK ACTIVE - NO NEED FOR TEMPORARY UNLOCK"]%string /\
  actuator_commands
    (new_events (exec exit_lockdown (exec enter_lockdown w))
       (exec temporary_unlock (exec exit_lockdown (exec enter_lockdown w))))
  = [] /\
  locked (exec temporary_unlock (exec exit_lockdown (exec enter_lockdown w))).
Proof.
  intros Hw. rewrite temporary_unlock_spec, exit_lockdown_spec.
  rewrite enter_lockdown_spec. cbn [lockbox window_active lockdown_active].
  rewrite Hw. erewrite new_events_app by reflexivity. repeat split.
Qed.

Lemma stale_window_refuses_unlock_witness :
  lockbox (exec exit_lockdown (exec enter_lockdown world_window_open))
  = mkLockbox NORMAL false true /\
  locked (exec exit_lockdown (exec enter_lockdown world_window_open)) /\
  log_lines
    (new_events (exec exit_lockdown (exec enter_lockdown world_window_open))
       (exec temporary_unlock
          (exec exit_lockdown (exec enter_lockdown world_window_open))))
  = ["[INFO] WINDOW UNLOCK ACTIVE - NO NEED FOR TEMPORARY UNLOCK"]%string /\
  actuator_commands
    (new_events (exec exit_lockdown (exec enter_lockdown world_window_open))
       (exec temporary_unlock
          (exec exit_lockdown (exec enter_lockdown world_window_open))))
  = [] /\
  locked
    (exec temporary_unlock
       (exec exit_lockdown (exec enter_lockdown world_window_open))).
Proof.
  apply (stale_window_refuses_unlock world_window_open).
  vm_compute. reflexivity.
Defined.

(** * Further properties of the interpreter *)

Lemma run_keys_app keys1 keys2 w :
  exec (run_keys (keys1 ++ keys2)) w =
  exec (run_keys keys2) (exec (run_keys keys1) w).
Proof.
  revert w. induction keys1 as [ | key keys1 IH ]; intros w; [ reflexivity | ].
  cbn [app run_keys]. rewrite !exec_seq. apply IH.
Qed.

(** A key other than the star, one character long. *)
Definition code_key (key : string) : Prop :=
  String.eqb key "*" = false /\ String.length key = 1.

Lemma key_symbol_code_key key :
  is_key_symbol key = true -> key <> "*"%string -> code_key key.
Proof.
  intros Hk Hn. destruct (key_symbol_shape key Hk) as [Hl _].
  split; [ now apply String.eqb_neq | exact Hl ].
Qed.

(** ** Starting over with the star *)

(** X9.  Whatever the buffer holds, the star followed by four code keys
    makes [process_code] run on exactly those four keys: what was typed
    before the star is gone. *)
Theorem star_starts_over w k1 k2 k3 k4 :
  code_key k1 -> code_key k2 -> code_key k3 -> code_key k4 ->
  exec (run_keys ["*"%string; k1; k2; k3; k4]) w =
  exec (set_buffer "")
    (exec process_code
       (mkWorld (lockbox w) (k1 ++ k2 ++ k3 ++ k4) (relay w)
          (trace w ++
           [EvPrint "[KEY] *"; EvPrint "[BUFFER CLEARED]";
            EvPrint ("[KEY] " ++ k1); EvPrint ("[KEY] " ++ k2);
            EvPrint ("[KEY] " ++ k3); EvPrint ("[KEY] " ++ k4)]))).
Proof.
  intros [S1 L1] [S2 L2] [S3 L3] [S4 L4].
  unfold run_keys. rewrite !exec_seq, exec_ret.
  assert (E0 : exec (run_key "*") w =
               mkWorld (lockbox w) "" (relay w)
                 (trace w ++ [EvPrint "[KEY] *"; EvPrint "[BUFFER CLEARED]"])).
  { rewrite run_key_unfold. cbv zeta. cbn [String.eqb Ascii.eqb Bool.eqb].
    rewrite !exec_print, exec_set_buffer. cbn [lockbox buffer relay trace].
    now rewrite <- app_assoc. }
  rewrite E0.
  rewrite (run_key_append k1); cbn [lockbox buffer relay trace append];
    [ | exact S1 | now rewrite L1 ].
  rewrite (run_key_append k2); cbn [lockbox buffer relay trace];
    [ | exact S2 | now rewrite length_append, L1, L2 ].
  rewrite (run_key_append k3); cbn [lockbox buffer relay trace];
    [ | exact S3 | now rewrite !length_append, L1, L2, L3 ].
  rewrite (run_key_classify k4); cbn [lockbox buffer relay trace];
    [ | exact S4 | now rewrite !length_append, L1, L2, L3, L4 ].
  rewrite <- !app_assoc. cbn [app].
  assert (A : forall a b c d : string,
             ((a ++ b) ++ c ++ d)%string = (a ++ b ++ c ++ d)%string).
  { intros a b c d. induction a as [ | x a IH ]; cbn; [ reflexivity | ].
    now rewrite IH. }
  assert (B : forall a b c : string,
             ((a ++ b) ++ c)%string = (a ++ b ++ c)%string).
  { intros a b c. induction a as [ | x a IH ]; cbn; [ reflexivity | ].
    now rewrite IH. }
  rewrite !B. reflexivity.
Qed.

Lemma star_starts_over_witness :
  exec (run_keys ["*"; "1"; "2"; "3"; "4"]%string) world_three_keys =
  exec (set_buffer "")
    (exec process_code
       (mkWorld (lockbox world_three_keys) NORMAL_CODE (relay world_three_keys)
          (trace world_three_keys ++
           [EvPrint "[KEY] *"; EvPrint "[BUFFER CLEARED]";
            EvPrint "[KEY] 1"; EvPrint "[KEY] 2";
            EvPrint "[KEY] 3"; EvPrint "[KEY] 4"]))).
Proof.
  apply (star_starts_over world_three_keys "1" "2" "3" "4");
    split; reflexivity.
Defined.

(** ** One attempt for every four keys *)

(** X10.  A run of code keys typed into a buffer of [n] characters enters
    [process_code] once for every four characters, [(n + length keys) / 4]
    times in all, and leaves [(n + length keys) mod 4] characters in the
    buffer. *)
Theorem one_attempt_per_four_keys keys w :
  Forall code_key keys ->
  String.length (buffer w) < 4 ->
  count_calls "process_code" (trace (exec (run_keys keys) w)) =
  count_calls "process_code" (trace w)
  + (String.length (buffer w) + length keys) / 4 /\
  String.length (buffer (exec (run_keys keys) w)) =
  (String.length (buffer w) + length keys) mod 4.
Proof.
  intros Hk. revert w. induction Hk as [ | key keys [Hs Hl] _ IH ]; intros w Hn.
  - cbn [run_keys length]. rewrite exec_ret, Nat.add_0_r.
    rewrite Nat.div_small, Nat.mod_small by exact Hn. now rewrite Nat.add_0_r.
  - cbn [run_keys length]. rewrite exec_seq.
    destruct (count_key key w) as [Hc _]. pose proof (buffer_key key w) as Hb.
    rewrite Hs in Hc, Hb.
    pose proof (length_append (buffer w) key) as Hla. rewrite Hl in Hla.
    destruct (Nat.leb_spec 4 (String.length (buffer w ++ key))) as [ H4 | H4 ].
    + assert (H3 : String.length (buffer w) = 3) by lia.
      destruct (IH (exec (run_key key) w)) as [-> ->];
        [ rewrite Hb; cbn; lia | ].
      rewrite Hb, Hc, H3. cbn [String.length].
      replace (3 + S (length keys)) with (length keys + 1 * 4) by lia.
      rewrite Nat.div_add, Nat.Div0.mod_add by discriminate.
      cbn [Nat.add]. split; [ lia | reflexivity ].
    + destruct (IH (exec (run_key key) w)) as [-> ->];
        [ rewrite Hb; exact H4 | ].
      rewrite Hb, Hc, Hla.
      replace (String.length (buffer w) + 1 + length keys)
        with (String.length (buffer w) + S (length keys)) by lia.
      split; reflexivity.
Qed.

Lemma one_attempt_per_four_keys_witness :
  count_calls "process_code"
    (trace (exec (run_keys ["4"; "0"; "0"; "0"; "0"; "7"]%string) world_three_keys))
  = count_calls "process_code" (trace world_three_keys)
    + (String.length (buffer world_three_keys) + 6) / 4 /\
  String.length
    (buffer (exec (run_keys ["4"; "0"; "0"; "0"; "0"; "7"]%string) world_three_keys))
  = (String.length (buffer world_three_keys) + 6) mod 4.
Proof.
  apply (one_attempt_per_four_keys
           ["4"; "0"; "0"; "0"; "0"; "7"]%string world_three_keys).
  - repeat constructor.
  - vm_compute. repeat constructor.
Defined.

(** * The keypad thread *)

(** ** KeypadThread *)

Definition ROW_PINS : list nat := [5; 6; 13; 19].
Definition COL_PINS : list nat := [12; 16; 20; 21].

(** [KEY_MAP[i][j]], or [None] where Python raises [IndexError]. *)
Definition KEY_MAP_at (i j : nat) : option string :=
  match nth_error KEY_MAP i with
  | Some row => nth_error row j
  | None => None
  end.

(** The inner loop of [KeypadThread.run] for row [i]: the columns [cols],
    numbered from [j].  [read c] is what [GPIO.input(c)] returns while the
    row is driven low.  The result is the keys put on the queue, in order,
    and whether the loop ran to its end ([false]: an [IndexError] ended
    the thread).  The debounce sleep of 0.3 s leaves nothing behind. *)
Fixpoint scan_columns (read : nat -> Level) (i j : nat) (cols : list nat)
  : list string * bool :=
  match cols with
  | [] => ([], true)
  | c :: rest =>
      match read c with
      | HIGH =>
          match KEY_MAP_at i j with
          | Some key =>
              let (puts, ok) := scan_columns read i (S j) rest in
              (key :: puts, ok)
          | None => ([], false)
          end
      | LOW => scan_columns read i (S j) rest
      end
  end.

(** The outer loop, for the rows [rows] numbered from [i]: [read r c] is
    what [GPIO.input(c)] returns while row pin [r] is driven low (each
    pair is read once in a scan). *)
Fixpoint scan_rows (read : nat -> nat -> Level) (i : nat) (rows : list nat)
  : IO (list string * bool) :=
  match rows with
  | [] => ret ([], true)
  | r :: rest =>
      GPIO_output r LOW ;;
      let (puts, ok) := scan_columns (read r) i 0 COL_PINS in
      if ok then
        GPIO_output r HIGH ;;
        res <- scan_rows read (S i) rest ;;
        ret (puts ++ fst res, snd res)
      else ret (puts, false)
  end.

(** One pass of the [while True] loop of [KeypadThread.run] (its closing
    sleep of 0.05 s leaves nothing behind). *)
Definition KeypadThread_scan (read : nat -> nat -> Level)
  : IO (list string * bool) :=
  scan_rows read 0 ROW_PINS.

(** The keys one pass puts on the queue, and the world it leaves. *)
Definition scanned_keys (read : nat -> nat -> Level) (w : World) : list string :=
  fst (fst (runState (KeypadThread_scan read) w)).

Definition scan_completes (read : nat -> nat -> Level) (w : World) : bool :=
  snd (fst (runState (KeypadThread_scan read) w)).

Definition world_after_scan (read : nat -> nat -> Level) (w : World) : World :=
  snd (runState (KeypadThread_scan read) w).

(** ** main: the three threads and the queue *)

(** The program as [main] starts it: the lockbox and the two threads that
    use it, and the queue between the keypad thread and the interpreter. *)
Record Machine : Type := mkMachine
  { sys : System;
    key_queue : list string }.

Definition initial_machine : Machine := mkMachine initial_system [].

(** Which thread moves: the keypad thread makes a pass with the readings
    [read]; the interpreter takes a key from the queue ([key_queue.get()]
    blocks on an empty queue, so nothing moves then); the window thread
    makes its next access.  A pass is one move: the queue is first-in
    first-out, so the interpreter takes the same keys in the same order
    as when it runs between two puts of a pass.  An iteration of the
    interpreter is one move as well, the sleep of [temporary_unlock]
    included: what is proved of moves holds between two moves, not within
    one. *)
Inductive Move : Type :=
  | Scan (read : nat -> nat -> Level)
  | Take
  | Tick.

Definition machine_step (m : Machine) (mv : Move) : Machine :=
  match mv with
  | Scan read =>
      mkMachine
        (mkSystem (world_after_scan read (world (sys m))) (window_pc (sys m)))
        (key_queue m ++ scanned_keys read (world (sys m)))
  | Take =>
      match key_queue m with
      | [] => m
      | key :: rest => mkMachine (sys_step (sys m) (Key key)) rest
      end
  | Tick => mkMachine (sys_step (sys m) Window) (key_queue m)
  end.

Definition run_machine (moves : list Move) (m : Machine) : Machine :=
  fold_left machine_step moves m.

(** ** Equations of a pass *)

Lemma runState_seq {A : Type} (c : IO unit) (k : IO A) w :
  runState (c ;; k) w = runState k (exec c w).
Proof.
  unfold exec, execState. cbn. destruct (runState c w) as [[] w1]. reflexivity.
Qed.

Lemma exec_GPIO_output pin l w :
  exec (GPIO_output pin l) w =
  mkWorld (lockbox w) (buffer w)
    (if Nat.eqb pin RELAY_PIN then l else relay w)
    (trace w ++ [EvOutput pin l]).
Proof. reflexivity. Qed.

Lemma KEY_MAP_at_symbol i j key :
  KEY_MAP_at i j = Some key -> is_key_symbol key = true.
Proof.
  unfold KEY_MAP_at. destruct (nth_error KEY_MAP i) as [ row | ] eqn:Hi;
    [ | discriminate ].
  intros Hj. unfold is_key_symbol. apply existsb_exists. exists key.
  split; [ | apply String.eqb_refl ].
  unfold key_symbols. apply in_concat. exists row.
  split; [ exact (nth_error_In _ _ Hi) | exact (nth_error_In _ _ Hj) ].
Qed.

(** [KEY_MAP] has an entry for every row and column scanned. *)
Lemma KEY_MAP_at_in_range i j :
  i < length ROW_PINS -> j < length COL_PINS -> KEY_MAP_at i j <> None.
Proof.
  cbn [length ROW_PINS COL_PINS]. intros Hi Hj.
  do 4 (destruct i as [ | i ];
        [ do 4 (destruct j as [ | j ]; [ discriminate | ]); lia | ]).
  lia.
Qed.

(** The inner loop, where [KEY_MAP] has the entries. *)
Lemma scan_columns_spec read i cols :
  forall j,
    (forall n, n < length cols -> KEY_MAP_at i (j + n) <> None) ->
    snd (scan_columns read i j cols) = true /\
    length (fst (scan_columns read i j cols)) <= length cols /\
    (forall key,
        In key (fst (scan_columns read i j cols)) <->
        exists n c,
          nth_error cols n = Some c /\ read c = HIGH /\
          KEY_MAP_at i (j + n) = Some key).
Proof.
  induction cols as [ | c cols IH ]; intros j Hin.
  - cbn. repeat split; [ lia | intros [] | ].
    intros (n & c & H & _). now destruct n.
  - assert (Hrest : forall n, n < length cols -> KEY_MAP_at i (S j + n) <> None).
    { intros n Hn. replace (S j + n) with (j + S n) by lia.
      apply Hin. cbn. lia. }
    destruct (IH (S j) Hrest) as (Hok & Hlen & Hkeys).
    assert (Hshift : forall key,
               (exists n c0, nth_error cols n = Some c0 /\ read c0 = HIGH /\
                             KEY_MAP_at i (S j + n) = Some key) ->
               exists n c0, nth_error (c :: cols) n = Some c0 /\
                            read c0 = HIGH /\ KEY_MAP_at i (j + n) = Some key).
    { intros key (n & c0 & H1 & H2 & H3). exists (S n), c0.
      replace (j + S n) with (S j + n) by lia. now repeat split. }
    cbn [scan_columns]. destruct (read c) eqn:Hc.
    + split; [ exact Hok | ]. split; [ cbn [length]; lia | ].
      intros key. rewrite Hkeys. split; [ apply Hshift | ].
      intros (n & c0 & H1 & H2 & H3). destruct n as [ | n ].
      * cbn in H1. injection H1 as <-. congruence.
      * exists n, c0. replace (S j + n) with (j + S n) by lia.
        now repeat split.
    + destruct (KEY_MAP_at i j) as [ k | ] eqn:Hk.
      2:{ exfalso. apply (Hin 0); [ cbn; lia | ]. now rewrite Nat.add_0_r. }
      destruct (scan_columns read i (S j) cols) as [puts ok] eqn:Hs.
      cbn [fst snd] in *. split; [ exact Hok | ].
      split; [ cbn [length]; lia | ].
      intros key. cbn [In]. rewrite Hkeys. split.
      * intros [ <- | H ]; [ | now apply Hshift ].
        exists 0, c. rewrite Nat.add_0_r. now repeat split.
      * intros (n & c0 & H1 & H2 & H3). destruct n as [ | n ].
        -- left. rewrite Nat.add_0_r in H3. congruence.
        -- right. exists n, c0. replace (S j + n) with (j + S n) by lia.
           now repeat split.
Qed.

Definition row_outputs (rows : list nat) : list Event :=
  flat_map (fun r => [EvOutput r LOW; EvOutput r HIGH]) rows.

(** The outer loop, where [KEY_MAP] has the entries and no row pin is the
    relay's. *)
Lemma scan_rows_spec read rows :
  forall i w,
    (forall m n, m < length rows -> n < length COL_PINS ->
                 KEY_MAP_at (i + m) n <> None) ->
    ~ In RELAY_PIN rows ->
    snd (fst (runState (scan_rows read i rows) w)) = true /\
    snd (runState (scan_rows read i rows) w) =
    mkWorld (lockbox w) (buffer w) (relay w) (trace w ++ row_outputs rows) /\
    length (fst (fst (runState (scan_rows read i rows) w)))
    <= length rows * length COL_PINS /\
    (forall key,
        In key (fst (fst (runState (scan_rows read i rows) w))) <->
        exists m r n c,
          nth_error rows m = Some r /\ nth_error COL_PINS n = Some c /\
          read r c = HIGH /\ KEY_MAP_at (i + m) n = Some key).
Proof.
  induction rows as [ | r rows IH ]; intros i w Hmap Hpin.
  - cbn. rewrite app_nil_r. destruct w. repeat split; [ lia | intros [] | ].
    intros (m & r & _ & _ & H & _). now destruct m.
  - assert (Hr : Nat.eqb r RELAY_PIN = false).
    { apply Nat.eqb_neq. intros ->. apply Hpin. now left. }
    assert (Hcols : forall n, n < length COL_PINS -> KEY_MAP_at i (0 + n) <> None).
    { intros n Hn. specialize (Hmap 0 n). rewrite Nat.add_0_r in Hmap.
      apply Hmap; [ cbn; lia | exact Hn ]. }
    destruct (scan_columns_spec (read r) i COL_PINS 0 Hcols) as (Hok & Hlen & Hkeys).
    cbn [scan_rows]. rewrite runState_seq, exec_GPIO_output, Hr.
    destruct (scan_columns (read r) i 0 COL_PINS) as [puts ok].
    cbn [fst snd] in Hok, Hlen, Hkeys. subst ok.
    rewrite runState_seq, exec_GPIO_output, Hr.
    cbn [lockbox buffer relay trace].
    set (w2 := mkWorld (lockbox w) (buffer w) (relay w)
                 ((trace w ++ [EvOutput r LOW]) ++ [EvOutput r HIGH])).
    assert (Hmap' : forall m n, m < length rows -> n < length COL_PINS ->
                                KEY_MAP_at (S i + m) n <> None).
    { intros m n Hm Hn. replace (S i + m) with (i + S m) by lia.
      apply Hmap; [ cbn; lia | exact Hn ]. }
    assert (Hpin' : ~ In RELAY_PIN rows) by (intros H; apply Hpin; now right).
    destruct (IH (S i) w2 Hmap' Hpin') as (Hok' & Hw' & Hlen' & Hkeys').
    cbn [bind Monad_state runState].
    destruct (runState (scan_rows read (S i) rows) w2) as [[puts' ok'] w3].
    cbn [fst snd] in *. subst ok'.
    change (runState (ret (puts ++ puts', true)) w3)
      with (puts ++ puts', true, w3).
    cbn [fst snd].
    split; [ reflexivity | ]. split; [ | split ].
    + rewrite Hw'. subst w2. cbn [lockbox buffer relay trace row_outputs flat_map].
      now rewrite <- !app_assoc.
    + rewrite length_app. cbn [length] in *. lia.
    + intros key. rewrite in_app_iff, Hkeys, Hkeys'. split.
      * intros [ (n & c & H1 & H2 & H3) | (m & r' & n & c & H1 & H2 & H3 & H4) ].
        -- exists 0, r, n, c. rewrite Nat.add_0_r. now repeat split.
        -- exists (S m), r', n, c. replace (i + S m) with (S i + m) by lia.
           now repeat split.
      * intros (m & r' & n & c & H1 & H2 & H3 & H4). destruct m as [ | m ].
        -- left. cbn in H1. injection H1 as <-. rewrite Nat.add_0_r in H4.
           now exists n, c.
        -- right. exists m, r', n, c. replace (S i + m) with (i + S m) by lia.
           now repeat split.
Qed.

(** The outer loop on [ROW_PINS], as [KeypadThread_scan] runs it. *)
Lemma scan_spec read w :
  scan_completes read w = true /\
  world_after_scan read w =
  mkWorld (lockbox w) (buffer w) (relay w) (trace w ++ row_outputs ROW_PINS) /\
  length (scanned_keys read w) <= 16 /\
  (forall key,
      In key (scanned_keys read w) <->
      exists i r j c,
        nth_error ROW_PINS i = Some r /\ nth_error COL_PINS j = Some c /\
        read r c = HIGH /\ KEY_MAP_at i j = Some key).
Proof.
  unfold scan_completes, scanned_keys, world_after_scan, KeypadThread_scan.
  apply (scan_rows_spec read ROW_PINS 0 w).
  - intros m n. apply KEY_MAP_at_in_range.
  - cbn. intuition discriminate.
Qed.

Lemma scanned_keys_symbols read w :
  Forall (fun key => is_key_symbol key = true) (scanned_keys read w).
Proof.
  destruct (scan_spec read w) as (_ & _ & _ & Hkeys).
  apply Forall_forall. intros key Hin. apply Hkeys in Hin.
  destruct Hin as (m & _ & n & _ & _ & _ & _ & H).
  exact (KEY_MAP_at_symbol _ _ _ H).
Qed.

(** ** What a pass of the keypad thread does *)

(** X11.  A pass of the keypad thread never indexes [KEY_MAP] out of
    range, puts at most sixteen keys on the queue, and every key it puts
    is an entry of [KEY_MAP]. *)
Theorem scan_puts_key_symbols read w :
  scan_completes read w = true /\
  length (scanned_keys read w) <= 16 /\
  Forall (fun key => is_key_symbol key = true) (scanned_keys read w).
Proof.
  destruct (scan_spec read w) as (Hok & _ & Hlen & _).
  split; [ exact Hok | ]. split; [ exact Hlen | ].
  apply scanned_keys_symbols.
Qed.

(** X12.  A pass of the keypad thread leaves the lockbox, the buffer and
    the relay alone.  Whatever the columns read, it drives each row pin
    low and then high again, in the order of [ROW_PINS], and nothing
    else. *)
Theorem scan_leaves_lock_alone read w :
  lockbox (world_after_scan read w) = lockbox w /\
  buffer (world_after_scan read w) = buffer w /\
  relay (world_after_scan read w) = relay w /\
  new_events w (world_after_scan read w) = row_outputs ROW_PINS /\
  actuator_commands (new_events w (world_after_scan read w)) = [].
Proof.
  destruct (scan_spec read w) as (_ & Hw & _).
  rewrite Hw. erewrite new_events_app by reflexivity. repeat split.
Qed.

(** X13.  A key is put on the queue by a pass exactly when the column pin
    of its place in [KEY_MAP] read high while the row pin of its place
    was driven low. *)
Theorem scan_puts_pressed_keys read w key :
  In key (scanned_keys read w) <->
  exists i r j c,
    nth_error ROW_PINS i = Some r /\ nth_error COL_PINS j = Some c /\
    read r c = HIGH /\ KEY_MAP_at i j = Some key.
Proof.
  destruct (scan_spec read w) as (_ & _ & _ & Hkeys). exact (Hkeys key).
Qed.

Lemma scan_puts_pressed_keys_witness :
  In "9"%string (scanned_keys (fun r c => if Nat.eqb r 13 && Nat.eqb c 20
                                          then HIGH else LOW) initial_world).
Proof.
  apply (scan_puts_pressed_keys
           (fun r c => if Nat.eqb r 13 && Nat.eqb c 20 then HIGH else LOW)
           initial_world "9").
  exists 2, 13, 2, 20. repeat split.
Defined.

(** ** The whole program *)

Definition machine_ok (m : Machine) : Prop :=
  Forall (fun key => is_key_symbol key = true) (key_queue m) /\
  consistent (world (sys m)) = true /\
  buffer_ok (world (sys m)).

Lemma machine_ok_step m mv : machine_ok m -> machine_ok (machine_step m mv).
Proof.
  intros (Hq & Hc & Hb). destruct mv as [ read | | ]; cbn [machine_step].
  - destruct (scan_spec read (world (sys m))) as (_ & Hw & _).
    pose proof (scanned_keys_symbols read (world (sys m))) as Hk.
    split; [ | split ]; cbn [key_queue sys world].
    + apply Forall_app. now split.
    + rewrite <- Hc, Hw. now apply consistent_ext.
    + unfold buffer_ok. rewrite Hw. exact Hb.
  - destruct (key_queue m) as [ | key rest ] eqn:Hkq.
    { split; [ rewrite Hkq; constructor | now split ]. }
    inversion Hq as [ | ? ? Hkey Hrest ]; subst.
    split; [ | split ]; cbn [key_queue sys sys_step world].
    + exact Hrest.
    + now apply consistent_key.
    + now apply buffer_ok_key.
  - split; [ exact Hq | ]. cbn [sys]. rewrite sys_step_window.
    destruct (window_pc (sys m)); cbn [world].
    + now split.
    + split; [ exact (consistent_op TriggerWindowUnlock _ Hc) | ].
      unfold buffer_ok. now rewrite (buffer_op TriggerWindowUnlock).
    + split; [ exact (consistent_op EndWindowUnlock _ Hc) | ].
      unfold buffer_ok. now rewrite (buffer_op EndWindowUnlock).
Qed.

Lemma machine_ok_run moves m : machine_ok m -> machine_ok (run_machine moves m).
Proof.
  revert m. induction moves as [ | mv moves IH ]; intros m H; [ exact H | ].
  cbn [run_machine fold_left]. apply IH. now apply machine_ok_step.
Qed.

(** X14.  Between two moves of the program, a move being one whole pass
    of the keypad thread, one whole iteration of the interpreter's loop, or
    one access of the window thread to the lockbox, in any order and
    whatever the keypad pins read: the queue holds entries of [KEY_MAP]
    only; the relay is high exactly in mode [WINDOW] and low whenever
    [lockdown_active] is set; the mode determines the flags; and the buffer
    holds fewer than four characters.  (Within an iteration of the
    interpreter the relay is high during the sleep of [temporary_unlock]
    and the buffer holds four characters while [process_code] runs; those
    are not points between two moves.) *)
Theorem whole_program_safe moves :
  Forall (fun key => is_key_symbol key = true)
    (key_queue (run_machine moves initial_machine)) /\
  (relay (world (sys (run_machine moves initial_machine))) = HIGH <->
   state (lockbox (world (sys (run_machine moves initial_machine)))) = WINDOW) /\
  (lockdown_active (lockbox (world (sys (run_machine moves initial_machine))))
   = true ->
   locked (world (sys (run_machine moves initial_machine)))) /\
  mode_invariant (lockbox (world (sys (run_machine moves initial_machine)))) /\
  String.length (buffer (world (sys (run_machine moves initial_machine)))) < 4.
Proof.
  assert (H : machine_ok (run_machine moves initial_machine)).
  { apply machine_ok_run. split; [ constructor | ].
    split; [ reflexivity | split; [ cbn; lia | reflexivity ] ]. }
  destruct H as (Hq & Hc & Hb & _).
  set (w := world (sys (run_machine moves initial_machine))) in *.
  split; [ exact Hq | ].
  split; [ | split; [ | split; [ now apply consistent_mode_invariant | exact Hb ] ] ].
  - revert Hc. destruct w as [[m ld win] b r t]. unfold consistent. cbn.
    destruct m, ld, win, r; intros H; try discriminate H;
      split; intros E; try reflexivity; discriminate E.
  - revert Hc. destruct w as [[m ld win] b r t]. unfold consistent, locked. cbn.
    destruct m, ld, win, r; intros H E; try discriminate H; try reflexivity;
      discriminate E.
Qed.

(** The readings with the keys at the given places of [KEY_MAP] held down:
    [(r, c)] lists the row and column pins that connect. *)
Definition readings (pressed : list (nat * nat)) (r c : nat) : Level :=
  if existsb (fun p => Nat.eqb (fst p) r && Nat.eqb (snd p) c) pressed
  then HIGH else LOW.

Lemma whole_program_safe_witness :
  locked
    (world (sys (run_machine
                   [Scan (readings [(19, 12)]); Take; Scan (readings [(13, 20)]);
                    Take; Scan (readings [(13, 20)]); Take;
                    Scan (readings [(13, 20)]); Take; Scan (readings [(13, 20)]);
                    Take]
                   initial_machine))).
Proof.
  apply (whole_program_safe
           [Scan (readings [(19, 12)]); Take; Scan (readings [(13, 20)]);
            Take; Scan (readings [(13, 20)]); Take;
            Scan (readings [(13, 20)]); Take; Scan (readings [(13, 20)]);
            Take]).
  vm_compute. reflexivity.
Defined.
